(** * Integrity Assistant: the local context-capture pipeline

    A shallow embedding of the capture core of the Integrity Assistant:
    - [modules/screen_capture.py]   (class [ScreenCapture]),
    - [modules/keystroke_logger.py] (class [KeystrokeLogger]),
    - [main.py]                     (class [IntegrityAssistant]: the two rolling
      lists and the query data block),
    followed by the properties of the pipeline.

    Conventions of the embedding.
    - A Python [str] is a [string]; a character stands for its code point, so
      the text handled here is text over the code points below 256.
    - The two rolling lists are Python list objects that are mutated in place
      and shared by reference; they live in a store, a finite map from
      locations to list objects.
    - The system clock is read through a [clock] record carried by each event:
      all readings made while one event is handled return that record.
      [time.time()] is a binary64 floating-point number of seconds, and the
      elapsed-time test is computed in floating point, as the program does. *)

From Stdlib Require Import ZArith Ascii String Floats.
From stdpp Require Import base option list gmap strings.

Local Open Scope Z_scope.

(* ================================================================== *)
(** ** Python [str] operations used by the sources                     *)
(* ================================================================== *)

Module Str.

(** Truth value of a string: [if s:] holds for every string but the empty one. *)
Definition truthy (s : string) : bool :=
  match s with
  | EmptyString => false
  | String _ _ => true
  end.

(** [c.isspace()] for a code point below 256: TAB, LF, VT, FF, CR, the
    separators FS, GS, RS, US, the space, NEL and the no-break space. *)
Definition isspace (c : ascii) : bool :=
  let n := N_of_ascii c in
  ((9 <=? n) && (n <=? 13) || (28 <=? n) && (n <=? 32)
   || (n =? 133) || (n =? 160))%N.

(** [c.lower()] for a code point below 256: the letters A-Z and the
    capital letters of the Latin-1 supplement (all of 192-222 but the
    multiplication sign 215) move up by 32. *)
Definition lower_char (c : ascii) : ascii :=
  let n := N_of_ascii c in
  if ((65 <=? n) && (n <=? 90)
      || (192 <=? n) && (n <=? 222) && negb (n =? 215))%N
  then ascii_of_N (n + 32) else c.

(** [s.lower()] *)
Fixpoint lower (s : string) : string :=
  match s with
  | EmptyString => EmptyString
  | String c s' => String (lower_char c) (lower s')
  end.

(** [s.startswith(p)] *)
Definition startswith (s p : string) : bool := String.prefix p s.

(** [sub in s]: [sub] occurs in [s] as a substring. *)
Fixpoint contains (sub s : string) : bool :=
  String.prefix sub s ||
  match s with
  | EmptyString => false
  | String _ s' => contains sub s'
  end.

(** [s.replace(old, new)] for a non-empty [old]: the occurrences of [old]
    are replaced from left to right, without overlap. [skip] counts the
    characters of an occurrence just replaced that are still to be dropped. *)
Fixpoint replace_go (old new : string) (skip : nat) (s : string) : string :=
  match s with
  | EmptyString => EmptyString
  | String c s' =>
      match skip with
      | S k => replace_go old new k s'
      | O =>
          if String.prefix old s
          then new +:+ replace_go old new (Nat.pred (String.length old)) s'
          else String c (replace_go old new O s')
      end
  end.

Definition replace (s old new : string) : string := replace_go old new O s.

(** [s.split()] with no separator: the maximal runs of non-whitespace
    characters, in order. [split_run s] is the pair of the run that starts
    at the head of [s] (empty when [s] starts with whitespace) and of the
    runs after it. *)
Definition cons_run (w : string) (ws : list string) : list string :=
  if truthy w then w :: ws else ws.

Fixpoint split_run (s : string) : string * list string :=
  match s with
  | EmptyString => (EmptyString, [])
  | String c s' =>
      let '(w, ws) := split_run s' in
      if isspace c then (EmptyString, cons_run w ws) else (String c w, ws)
  end.

Definition split (s : string) : list string :=
  let '(w, ws) := split_run s in cons_run w ws.

(** [sep.join(ws)] *)
Definition join (sep : string) (ws : list string) : string :=
  String.concat sep ws.

End Str.

(* ================================================================== *)
(** ** The store: Python list objects shared by reference              *)
(* ================================================================== *)

(** A dictionary with string keys and string values, in insertion order:
    the two kinds of context entry are such dictionaries. *)
Definition dict := list (string * string).

Fixpoint dict_get (k : string) (d : dict) : option string :=
  match d with
  | [] => None
  | (k', v) :: d' => if String.eqb k k' then Some v else dict_get k d'
  end.

Module Store.

Definition loc := nat.

(** A list object. [items] is the content of the list. [appended] is a
    ghost field, absent from the program: the sequence of all the values
    ever passed to [append] on this object, oldest first. No operation of
    the program reads it. *)
Record pylist := PyList { items : list dict; appended : list dict }.

(** The content of the list at [l]; the locations the program holds are
    allocated once and for all by [IntegrityAssistant.__init__]. *)
Definition read (l : loc) (h : gmap loc pylist) : list dict :=
  match h !! l with
  | Some o => items o
  | None => []
  end.

(** Ghost: everything ever appended to the list at [l]. *)
Definition history (l : loc) (h : gmap loc pylist) : list dict :=
  match h !! l with
  | Some o => appended o
  | None => []
  end.

(** [len(l)] *)
Definition len (l : loc) (h : gmap loc pylist) : Z :=
  Z.of_nat (length (read l h)).

(** [l.append(x)]: in place, at the end. *)
Definition append (l : loc) (x : dict) (h : gmap loc pylist) : gmap loc pylist :=
  match h !! l with
  | Some o => <[l := PyList (items o ++ [x]) (appended o ++ [x])]> h
  | None => h
  end.

(** [l.pop(0)]: in place, removes the first element. The program calls it
    only under a guard [len(l) > n] with [n] positive, hence never on an
    empty list (where Python raises [IndexError]). *)
Definition pop0 (l : loc) (h : gmap loc pylist) : gmap loc pylist :=
  match h !! l with
  | Some o => <[l := PyList (tail (items o)) (appended o)]> h
  | None => h
  end.

End Store.

(** Clock readings made while one event is handled. *)
Record clock := Clock {
  time_time : float;  (* [time.time()], in seconds *)
  strftime : string   (* [time.strftime("%Y-%m-%dT%H:%M:%SZ", time.gmtime())] *)
}.

(* ================================================================== *)
(** ** modules/keystroke_logger.py                                     *)
(* ================================================================== *)

(** Keys as delivered by the listener. A [KeyCode] has a [char] attribute
    (possibly [None]) and its own printed form; a [Key] is a member of the
    enumeration of special keys, printed as ["Key."] followed by its name. *)
Inductive key :=
| KeyCode (char : option string) (printed : string)
| Key (name : string).

(** [key == keyboard.Key.<name>]: only the member of that name is equal to
    a member of the enumeration; a [KeyCode] never is. *)
Definition is_key (k : key) (name : string) : bool :=
  match k with
  | Key n => String.eqb n name
  | KeyCode _ _ => false
  end.

Module KeystrokeLogger.

Import Store.

(** The object state. [listener] is left out: it only delivers the events. *)
Record t := Make {
  running : bool;
  callback : option (string -> clock -> gmap loc pylist -> gmap loc pylist);
  buffer : string;
  last_timestamp : float;
  sensitive_mode : bool
}.

Definition sensitive_prefixes : list string :=
  ["password"; "passwd"; "pwd"; "pin"; "credit"; "card";
   "cvv"; "ssn"; "social"; "secret"].

Definition set_buffer (self : t) (b : string) : t :=
  Make (running self) (callback self) b (last_timestamp self) (sensitive_mode self).

Definition set_last_timestamp (self : t) (ts : float) : t :=
  Make (running self) (callback self) (buffer self) ts (sensitive_mode self).

Definition set_sensitive_mode (self : t) (m : bool) : t :=
  Make (running self) (callback self) (buffer self) (last_timestamp self) m.

Definition set_running (self : t) (r : bool) : t :=
  Make r (callback self) (buffer self) (last_timestamp self) (sensitive_mode self).

Definition set_callback (self : t)
    (cb : option (string -> clock -> gmap loc pylist -> gmap loc pylist)) : t :=
  Make (running self) cb (buffer self) (last_timestamp self) (sensitive_mode self).

(** [__init__] *)
Definition init (now : clock) : t :=
  Make false None "" (time_time now) false.

(** [start(callback_function)] *)
Definition start (self : t)
    (callback_function : string -> clock -> gmap loc pylist -> gmap loc pylist) : t :=
  if running self then self
  else set_callback (set_running self true) (Some callback_function).

(** [_active_keys()] *)
Definition _active_keys (self : t) : list key := [].

(** [_check_sensitive_context()]: the loop over the prefixes sets the mode
    at the first prefix found in the lowered buffer, and returns. *)
Definition _check_sensitive_context (self : t) : t :=
  let lower_buffer := Str.lower (buffer self) in
  if existsb (fun prefix => Str.contains prefix lower_buffer) sensitive_prefixes
  then set_sensitive_mode self true
  else self.

(** [_flush_buffer()] *)
Definition _flush_buffer (self : t) (now : clock) (h : gmap loc pylist)
  : t * gmap loc pylist :=
  let h' :=
    match callback self with
    | Some cb => if Str.truthy (buffer self) then cb (buffer self) now h else h
    | None => h
    end in
  (set_last_timestamp (set_buffer self "") (time_time now), h').

(** [str(key)] *)
Definition str_of_key (k : key) : string :=
  match k with
  | KeyCode _ printed => printed
  | Key name => "Key." +:+ name
  end.

(** Lines 50-55 of [_on_key_press]: the string representation of the key. *)
Definition key_repr (k : key) : string :=
  let special := "[" +:+ Str.replace (str_of_key k) "Key." "" +:+ "]" in
  match k with
  | KeyCode (Some c) _ => if Str.truthy c then c else special
  | _ => special
  end.

(** Lines 47-59 of [_on_key_press]: the state after the sensitivity check
    and the string that is about to be added to the buffer. *)
Definition press_token (self : t) (k : key) : t * string :=
  let self1 := _check_sensitive_context self in
  let key_str := key_repr k in
  let key_str := if sensitive_mode self1 then "*" else key_str in
  (self1, key_str).

(** [_on_key_press(key)]. The body runs under [try]/[except]; none of the
    operations below raises. The three flush conditions are read on the
    string actually added to the buffer, the mask included. *)
Definition _on_key_press (self : t) (k : key) (now : clock) (h : gmap loc pylist)
  : t * gmap loc pylist :=
  if negb (running self) then (self, h)
  else
    let '(self1, key_str) := press_token self k in
    let self2 := set_buffer self1 (buffer self1 +:+ key_str) in
    let current_time := time_time now in
    if (1 <? current_time - last_timestamp self2)%float
       || Str.startswith key_str "["
       || (20 <? Z.of_nat (String.length (buffer self2)))
    then _flush_buffer self2 now h
    else (self2, h).

(** [_on_key_release(key)] *)
Definition _on_key_release (self : t) (k : key) (now : clock) (h : gmap loc pylist)
  : t * gmap loc pylist :=
  let '(self1, h1) :=
    if is_key k "enter" || is_key k "tab"
    then _flush_buffer self now h
    else (self, h) in
  if is_key k "tab" && existsb (fun a => is_key a "shift") (_active_keys self1)
  then (set_sensitive_mode self1 false, h1)
  else (self1, h1).

(** [stop()] *)
Definition stop (self : t) (now : clock) (h : gmap loc pylist)
  : t * gmap loc pylist :=
  let self1 := set_running self false in
  if Str.truthy (buffer self1) then _flush_buffer self1 now h else (self1, h).

End KeystrokeLogger.

(* ================================================================== *)
(** ** modules/screen_capture.py                                       *)
(* ================================================================== *)

Module ScreenCapture.

(** What a call leaves behind besides its result: the calls made to the OCR
    engine and the lines printed. *)
Inductive effect (Image : Type) :=
| OcrCall (image : Image)
| Print (line : string).
Arguments OcrCall {Image} image.
Arguments Print {Image} line.

Section WithOCR.

(** Screenshots are opaque. [image_to_string] is the OCR engine,
    [pytesseract.image_to_string]: it returns the text read ([inl]) or
    raises an exception, given by its message ([inr]). *)
Context {Image : Type} (image_to_string : Image -> string + string).

(** [capture()]: [grab] is the outcome of [ImageGrab.grab()], [None] when
    it raised; the exception is caught and [None] is returned. *)
Definition capture (grab : option Image) : option Image := grab.

(** [extract_text(image)] *)
Definition extract_text (image : option Image) : string * list (effect Image) :=
  match image with
  | None => ("", [])
  | Some img =>
      match image_to_string img with
      | inl text =>
          let text := Str.join " " (Str.split text) in
          (text, [OcrCall img])
      | inr e => ("", [OcrCall img; Print ("Error extracting text: " +:+ e)])
      end
  end.

End WithOCR.

End ScreenCapture.

(* ================================================================== *)
(** ** main.py                                                         *)
(* ================================================================== *)

Module IntegrityAssistant.

Import Store.

(** The fields of the object that the capture core uses. [screen_texts] and
    [keystrokes] hold references to two list objects; the fields are
    assigned once, in [__init__], and the lists are changed in place. The
    logger object is kept apart, in [world]. *)
Record t := Make {
  running : bool;
  screen_texts : loc;
  keystrokes : loc
}.

(** The data block sent with a query. The two context fields are bound to
    the list objects themselves. *)
Record data_block := DataBlock {
  user_query : string;
  ctx_screen_texts : loc;
  ctx_recent_keystrokes : loc;
  meta_user_id : option string;
  meta_timestamp : string
}.

(** The whole system: the assistant, its logger and the store. *)
Record world := World {
  app : t;
  logger : KeystrokeLogger.t;
  heap : gmap loc pylist
}.

(** [__init__]: two fresh, empty lists. *)
Definition init (now : clock) : world :=
  World (Make false 0%nat 1%nat)
        (KeystrokeLogger.init now)
        (<[1%nat := PyList [] []]> (<[0%nat := PyList [] []]> ∅)).

(** [on_keystroke(key_event)] *)
Definition on_keystroke (self : t) (key_event : string) (now : clock)
    (h : gmap loc pylist) : gmap loc pylist :=
  let timestamp := strftime now in
  let h1 := append (keystrokes self)
              [("timestamp", timestamp); ("content", key_event)] h in
  if 100 <? len (keystrokes self) h1 then pop0 (keystrokes self) h1 else h1.

(** The data block built by [submit_query(query_text)]; [user_id] is the
    result of [self.auth.get_user_id()]. *)
Definition make_data_block (self : t) (query_text : string)
    (user_id : option string) (now : clock) : data_block :=
  DataBlock query_text (screen_texts self) (keystrokes self)
            user_id (strftime now).

(** What a reader of the data block (the serializer of the request) finds
    in its two context fields, in the store as it is when it reads. *)
Definition block_screen_texts (d : data_block) (h : gmap loc pylist) : list dict :=
  read (ctx_screen_texts d) h.

Definition block_recent_keystrokes (d : data_block) (h : gmap loc pylist) : list dict :=
  read (ctx_recent_keystrokes d) h.

Section WithOCR.

Context {Image : Type} (image_to_string : Image -> string + string).

(** One turn of the loop body of [run_screen_capture]. *)
Definition capture_cycle (self : t) (grab : option Image) (now : clock)
    (h : gmap loc pylist) : gmap loc pylist :=
  let image := ScreenCapture.capture grab in
  let text := fst (ScreenCapture.extract_text image_to_string image) in
  if Str.truthy text then
    let timestamp := strftime now in
    let h1 := append (screen_texts self)
                [("timestamp", timestamp); ("text", text)] h in
    if 30 <? len (screen_texts self) h1 then pop0 (screen_texts self) h1 else h1
  else h.

(** What happens to the system. The capture thread and the key listener
    run side by side with the interactive flow; an event is one whole
    loop turn or one whole handler call. *)
Inductive event :=
| Start
| Stop (now : clock)
| Capture (grab : option Image) (now : clock)
| KeyPress (k : key) (now : clock)
| KeyRelease (k : key) (now : clock).

Definition with_logger (w : world)
    (r : KeystrokeLogger.t * gmap loc pylist) : world :=
  World (app w) (fst r) (snd r).

Definition step (w : world) (e : event) : world :=
  match e with
  | Start =>
      (* [start()] *)
      if running (app w) then w
      else
        let self := Make true (screen_texts (app w)) (keystrokes (app w)) in
        World self (KeystrokeLogger.start (logger w) (on_keystroke self)) (heap w)
  | Stop now =>
      (* [stop()] *)
      let self := Make false (screen_texts (app w)) (keystrokes (app w)) in
      with_logger (World self (logger w) (heap w))
                  (KeystrokeLogger.stop (logger w) now (heap w))
  | Capture grab now =>
      (* [while self.running:] one more turn *)
      if running (app w)
      then World (app w) (logger w) (capture_cycle (app w) grab now (heap w))
      else w
  | KeyPress k now =>
      with_logger w (KeystrokeLogger._on_key_press (logger w) k now (heap w))
  | KeyRelease k now =>
      with_logger w (KeystrokeLogger._on_key_release (logger w) k now (heap w))
  end.

Definition run (w : world) (evs : list event) : world :=
  fold_left step evs w.

End WithOCR.

Arguments Start {Image}.
Arguments Stop {Image} now.
Arguments KeyPress {Image} k now.
Arguments KeyRelease {Image} k now.
Arguments step {Image} image_to_string w e.
Arguments run {Image} image_to_string w evs.

End IntegrityAssistant.

(* ================================================================== *)
(** ** Text normalisation, as the specification words it               *)
(* ================================================================== *)

Module Normalize.

(** Every run of whitespace becomes one space. [in_run] tells that the
    character before the head was whitespace, so that the run has already
    given its space. *)
Fixpoint collapse (in_run : bool) (s : string) : string :=
  match s with
  | EmptyString => EmptyString
  | String c s' =>
      if Str.isspace c
      then if in_run then collapse true s' else String " " (collapse true s')
      else String c (collapse false s')
  end.

(** Leading whitespace removed. *)
Fixpoint trim_left (s : string) : string :=
  match s with
  | EmptyString => EmptyString
  | String c s' => if Str.isspace c then trim_left s' else s
  end.

(** Trailing whitespace removed: a whitespace character goes when nothing
    is left of what follows it. *)
Fixpoint trim_right (s : string) : string :=
  match s with
  | EmptyString => EmptyString
  | String c s' =>
      let r := trim_right s' in
      if Str.isspace c && negb (Str.truthy r) then EmptyString else String c r
  end.

Definition normalize (s : string) : string :=
  trim_right (trim_left (collapse false s)).

End Normalize.

(* ================================================================== *)
(** ** Vocabulary of the properties                                    *)
(* ================================================================== *)

(** What [" ".join] makes of the pair computed by [Str.split_run] when a
    non-whitespace character comes just before it. *)
Definition join_open (w : string) (ws : list string) : string :=
  match ws with
  | [] => w
  | _ :: _ => w +:+ " " +:+ Str.join " " ws
  end.

(** The shape shared by the two rolling lists: append, then drop the oldest
    element when the list has grown beyond [cap]. *)
Definition bounded_push (cap : Z) (l : Store.loc) (x : dict)
    (h : gmap Store.loc Store.pylist) : gmap Store.loc Store.pylist :=
  let h1 := Store.append l x h in
  if cap <? Store.len l h1 then Store.pop0 l h1 else h1.

(** The list at [l] holds the [cap] most recent of the values ever appended
    to it (all of them when there are fewer), oldest first. *)
Definition recent (cap : nat) (l : Store.loc)
    (h : gmap Store.loc Store.pylist) : Prop :=
  Store.read l h
  = drop (length (Store.history l h) - cap) (Store.history l h).

(** The test made by [_check_sensitive_context] on a buffer. *)
Definition has_marker (s : string) : bool :=
  existsb (fun prefix => Str.contains prefix (Str.lower s))
          KeystrokeLogger.sensitive_prefixes.

(** The keys that [_on_key_press] renders as a bracketed name: those without
    a non-empty [char]. *)
Definition special (k : key) : bool :=
  match k with
  | KeyCode (Some c) _ => negb (Str.truthy c)
  | _ => true
  end.

Definition bracketed (k : key) : string :=
  "[" +:+ Str.replace (KeystrokeLogger.str_of_key k) "Key." "" +:+ "]".

(** A printable key: [KeyCode] with the given character. *)
Definition char_key (c : string) : key := KeyCode (Some c) ("'" +:+ c +:+ "'").

(** The two kinds of entry. *)
Definition screen_entry (timestamp text : string) : dict :=
  [("timestamp", timestamp); ("text", text)].

Definition keystroke_entry (timestamp content : string) : dict :=
  [("timestamp", timestamp); ("content", content)].

(** The store after a call of a handler of the logger: untouched, or the
    callback applied once, to a non-empty string. *)
Definition emits (self : KeystrokeLogger.t) (now : clock)
    (h h' : gmap Store.loc Store.pylist) : Prop :=
  h' = h \/ exists cb s, KeystrokeLogger.callback self = Some cb
                         /\ Str.truthy s = true /\ h' = cb s now h.

(** The shape of the worlds the system goes through: the two lists are two
    allocated objects, the logger runs when the assistant does, an idle
    logger has an empty buffer, and the callback of the logger, once set, is
    [on_keystroke]. *)
Definition wf (w : IntegrityAssistant.world) : Prop :=
  let a := IntegrityAssistant.app w in
  let lg := IntegrityAssistant.logger w in
  let h := IntegrityAssistant.heap w in
  IntegrityAssistant.screen_texts a <> IntegrityAssistant.keystrokes a
  /\ is_Some (h !! IntegrityAssistant.screen_texts a)
  /\ is_Some (h !! IntegrityAssistant.keystrokes a)
  /\ KeystrokeLogger.running lg = IntegrityAssistant.running a
  /\ (KeystrokeLogger.running lg = false -> KeystrokeLogger.buffer lg = "")
  /\ match KeystrokeLogger.callback lg with
     | Some cb => forall s now h0, cb s now h0 = IntegrityAssistant.on_keystroke a s now h0
     | None => KeystrokeLogger.running lg = false
     end.

(** What one event may do to the store: nothing, one push of a keystroke
    entry with non-empty content, or one push of a screen entry with
    non-empty text. *)
Inductive heap_step (w : IntegrityAssistant.world)
  : gmap Store.loc Store.pylist -> Prop :=
| heap_same : heap_step w (IntegrityAssistant.heap w)
| heap_key s now :
    Str.truthy s = true ->
    heap_step w (bounded_push 100
                   (IntegrityAssistant.keystrokes (IntegrityAssistant.app w))
                   (keystroke_entry (strftime now) s)
                   (IntegrityAssistant.heap w))
| heap_screen t now :
    Str.truthy t = true ->
    heap_step w (bounded_push 30
                   (IntegrityAssistant.screen_texts (IntegrityAssistant.app w))
                   (screen_entry (strftime now) t)
                   (IntegrityAssistant.heap w)).

(** A key press that is handled adds [tok] to the buffer: the buffer then
    stays as it is, or is flushed at once with [tok] at its end. *)
Definition press_appends (self : KeystrokeLogger.t) (k : key) (now : clock)
    (h : gmap Store.loc Store.pylist) (tok : string) : Prop :=
  let self1 := fst (KeystrokeLogger.press_token self k) in
  let self2 :=
    KeystrokeLogger.set_buffer self1 (KeystrokeLogger.buffer self +:+ tok) in
  KeystrokeLogger._on_key_press self k now h = (self2, h)
  \/ KeystrokeLogger._on_key_press self k now h
     = KeystrokeLogger._flush_buffer self2 now h.

(** An OCR engine for the examples: a screenshot is given by the text it
    shows, and the engine reads it. *)
Definition text_ocr (image : string) : string + string := inl image.

(** The presses of the printable keys of a word, one clock reading each. *)
Definition type_keys {Image : Type} (word : list string) (cs : list clock)
  : list (IntegrityAssistant.event (Image := Image)) :=
  zip_with (fun c now => IntegrityAssistant.KeyPress (char_key c) now) word cs.

(** The same, all at one instant. *)
Definition type_word {Image : Type} (word : list string) (now : clock)
  : list (IntegrityAssistant.event (Image := Image)) :=
  type_keys word (repeat now (length word)).

Definition password_keys : list string :=
  ["p"; "a"; "s"; "s"; "w"; "o"; "r"; "d"].

(** Two instants for the examples, half a second apart. *)
Definition t0 : clock := Clock 0 "2024-01-01T00:00:00Z".
Definition t1 : clock := Clock 0.5 "2024-01-01T00:00:01Z".

(** A third instant, two seconds after [t1]. *)
Definition t2 : clock := Clock 2.5 "2024-01-01T00:00:03Z".

(** The system started at [t0], and then the word [password] typed at once. *)
Definition started : IntegrityAssistant.world :=
  IntegrityAssistant.run text_ocr (IntegrityAssistant.init t0)
    [IntegrityAssistant.Start].

Definition typed_password : IntegrityAssistant.world :=
  IntegrityAssistant.run text_ocr started (type_word password_keys t0).

(** An entry whose field [k] is present and not the empty string. *)
Definition field_nonempty (k : string) (d : dict) : Prop :=
  exists v, dict_get k d = Some v /\ v <> "".

(* ================================================================== *)
(** ** Vocabulary of the further properties                            *)
(* ================================================================== *)

(** A text made of whitespace only. *)
Fixpoint blank (s : string) : bool :=
  match s with
  | EmptyString => true
  | String c s' => Str.isspace c && blank s'
  end.

(** A text without any whitespace. *)
Fixpoint spaceless (s : string) : bool :=
  match s with
  | EmptyString => true
  | String c s' => negb (Str.isspace c) && spaceless s'
  end.

(** A word: not empty, and without whitespace. *)
Definition word (s : string) : Prop :=
  Str.truthy s = true /\ spaceless s = true.

(** The content of a keystroke entry, and the contents of a sequence of
    entries put end to end. *)
Definition entry_content (d : dict) : string :=
  match dict_get "content" d with
  | Some c => c
  | None => ""
  end.

Fixpoint contents (ds : list dict) : string :=
  match ds with
  | [] => ""
  | d :: ds' => entry_content d +:+ contents ds'
  end.

(** All that the logger has taken in so far: the contents of every entry
    ever appended to the keystroke list, oldest first, and then the buffer. *)
Definition recorded (w : IntegrityAssistant.world) : string :=
  contents (Store.history
              (IntegrityAssistant.keystrokes (IntegrityAssistant.app w))
              (IntegrityAssistant.heap w))
  +:+ KeystrokeLogger.buffer (IntegrityAssistant.logger w).

(** What an event adds to the buffer: the string a handled key press joins
    to it, and nothing for any other event. *)
Definition press_adds {Image : Type} (w : IntegrityAssistant.world)
    (e : IntegrityAssistant.event (Image := Image)) : string :=
  match e with
  | IntegrityAssistant.KeyPress k _ =>
      if KeystrokeLogger.running (IntegrityAssistant.logger w)
      then snd (KeystrokeLogger.press_token (IntegrityAssistant.logger w) k)
      else ""
  | _ => ""
  end.

(** The strings added by the key presses of a run, in order. *)
Fixpoint typed {Image : Type} (image_to_string : Image -> string + string)
    (w : IntegrityAssistant.world)
    (evs : list (IntegrityAssistant.event (Image := Image))) : string :=
  match evs with
  | [] => ""
  | e :: evs' =>
      press_adds w e
      +:+ typed image_to_string (IntegrityAssistant.step image_to_string w e) evs'
  end.

(** A string of mask characters only. *)
Fixpoint all_mask (s : string) : bool :=
  match s with
  | EmptyString => true
  | String c s' => Ascii.eqb c "*" && all_mask s'
  end.

Definition masked_entry (d : dict) : Prop :=
  exists c, dict_get "content" d = Some c /\ all_mask c = true.

Definition is_start {Image : Type}
    (e : IntegrityAssistant.event (Image := Image)) : bool :=
  match e with
  | IntegrityAssistant.Start => true
  | _ => false
  end.

(* ================================================================== *)
(** ** modules/auth.py                                                 *)
(* ================================================================== *)

From Stdlib Require DecimalString.

(** The values found in a session dictionary: [None], a string (the two
    tokens and the user id, as the authentication service gives them) or a
    number (the expiry, a clock reading in milliseconds). *)
Inductive pyval :=
| PNone
| PStr (s : string)
| PNum (n : Z).

(** Truth value of such a value: [if v:]. *)
Definition pyval_truthy (v : pyval) : bool :=
  match v with
  | PNone => false
  | PStr s => Str.truthy s
  | PNum n => negb (n =? 0)
  end.

(** The outcome of a call that may raise: the value returned, or the
    message of the exception. *)
Inductive result (A : Type) :=
| Ok (a : A)
| Raise (message : string).
Arguments Ok {A} a.
Arguments Raise {A} message.

(** [str(n)] for an integer. *)
Definition str_of_int (n : Z) : string :=
  DecimalString.NilZero.string_of_int (Z.to_int n).

Module SupabaseAuth.

(** What the object does to the outside, in order. *)
Inductive effect :=
| SignIn (email password : string)   (* [client.auth.sign_in_with_password] *)
| RefreshSession (token : pyval)     (* [client.auth.refresh_session] *)
| SignOut                            (* [client.auth.sign_out] *)
| WriteSession (session : gmap string pyval)   (* [json.dump] to the session file *)
| RemoveSession                      (* [os.remove] of the session file *)
| Print (line : string).

(** What the outside answers during one call of a method: the clock, the
    replies of the authentication service ([inr] is the message of the
    exception raised by the call, or by the reading of its reply), and the
    file system. *)
Record env := Env {
  now : Z;                                          (* [time.time()], in milliseconds *)
  sign_in_reply : (string * string * string) + string;  (* access token, refresh token, user id *)
  refresh_reply : (string * string) + string;       (* access token, refresh token *)
  sign_out_error : option string;
  write_error : option string;                      (* writing the session file *)
  session_file_exists : bool;
  remove_error : option string                      (* removing the session file *)
}.

(** The object state: whether the client was created, the session
    dictionary and the user id. *)
Record t := Make {
  client : bool;
  session : option (gmap string pyval);
  user_id : option string
}.

(** [not self.session]: no dictionary, or an empty one. *)
Definition no_session (self : t) : bool :=
  match session self with
  | None => true
  | Some d => bool_decide (d = ∅)
  end.

Definition id_val (user_id : option string) : pyval :=
  match user_id with
  | Some s => PStr s
  | None => PNone
  end.

(** The dictionary built by [login] and by [refresh_token]. *)
Definition new_session (access refresh : string) (user_id : option string)
    (expires_at : Z) : gmap string pyval :=
  <["expires_at" := PNum expires_at]>
    (<["user_id" := id_val user_id]>
       (<["refresh_token" := PStr refresh]>
          (<["access_token" := PStr access]> ∅))).

(** [_save_session()] *)
Definition _save_session (self : t) (e : env) : bool * list effect :=
  match session self with
  | None => (false, [])
  | Some d =>
      if no_session self then (false, [])
      else
        match write_error e with
        | None => (true, [WriteSession d])
        | Some err => (false, [WriteSession d; Print ("Failed to save session: " +:+ err)])
        end
  end.

(** [_is_token_expired()]; the comparison of the clock with a value that is
    not a number raises [TypeError]. *)
Definition _is_token_expired (self : t) (e : env) : result bool :=
  match session self with
  | None => Ok true
  | Some d =>
      if no_session self then Ok true
      else
        match d !! "expires_at" with
        | None => Ok true
        | Some (PNum expires_at) => Ok (expires_at <? now e)
        | Some (PStr _) =>
            Raise "'>' not supported between instances of 'float' and 'str'"
        | Some PNone =>
            Raise "'>' not supported between instances of 'float' and 'NoneType'"
        end
  end.

(** [refresh_token()] *)
Definition refresh_token (self : t) (e : env) : t * bool * list effect :=
  match session self with
  | None => (self, false, [])
  | Some d =>
      if negb (client self) || no_session self then (self, false, [])
      else
        match d !! "refresh_token" with
        | None => (self, false, [])
        | Some token =>
            match refresh_reply e with
            | inl (access, refresh) =>
                let self1 :=
                  Make (client self)
                       (Some (new_session access refresh (user_id self)
                                (now e + 3600000)))
                       (user_id self) in
                (self1, true, RefreshSession token :: snd (_save_session self1 e))
            | inr err =>
                (self, false,
                 [RefreshSession token; Print ("Token refresh failed: " +:+ err)])
            end
        end
  end.

(** [login(email, password)] *)
Definition login (self : t) (email password : string) (e : env)
  : t * bool * list effect :=
  if negb (client self) then (self, false, [])
  else
    match sign_in_reply e with
    | inl (access, refresh, uid) =>
        let self1 :=
          Make (client self)
               (Some (new_session access refresh (Some uid) (now e + 3600000)))
               (Some uid) in
        (self1, true, SignIn email password :: snd (_save_session self1 e))
    | inr err =>
        (self, false, [SignIn email password; Print ("Login failed: " +:+ err)])
    end.

(** [logout()] *)
Definition logout (self : t) (e : env) : t * bool * list effect :=
  if negb (client self) || no_session self then (self, false, [])
  else
    match sign_out_error e with
    | Some err => (self, false, [SignOut; Print ("Logout failed: " +:+ err)])
    | None =>
        let self1 := Make (client self) None None in
        if session_file_exists e then
          match remove_error e with
          | None => (self1, true, [SignOut; RemoveSession])
          | Some err =>
              (self1, false,
               [SignOut; RemoveSession; Print ("Logout failed: " +:+ err)])
          end
        else (self1, true, [SignOut])
    end.

(** [self.session.get('access_token')] *)
Definition access_token (self : t) : pyval :=
  match session self with
  | Some d => default PNone (d !! "access_token")
  | None => PNone
  end.

(** [get_auth_token()] *)
Definition get_auth_token (self : t) (e : env) : t * result pyval * list effect :=
  if no_session self then (self, Ok PNone, [])
  else
    match _is_token_expired self e with
    | Raise m => (self, Raise m, [])
    | Ok false => (self, Ok (access_token self), [])
    | Ok true =>
        let '(self1, refreshed, fx) := refresh_token self e in
        if refreshed then (self1, Ok (access_token self1), fx)
        else (self1, Ok PNone, fx)
    end.

(** [get_user_id()] *)
Definition get_user_id (self : t) : option string := user_id self.

(** [is_authenticated()] *)
Definition is_authenticated (self : t) (e : env) : t * result bool * list effect :=
  let '(self1, token, fx) := get_auth_token self e in
  match token with
  | Ok PNone => (self1, Ok false, fx)
  | Ok _ => (self1, Ok true, fx)
  | Raise m => (self1, Raise m, fx)
  end.

End SupabaseAuth.

(* ================================================================== *)
(** ** modules/api_client.py                                           *)
(* ================================================================== *)

Module ApiClient.

(** An exception raised while the request is made or its reply is read: a
    [requests.RequestException], or any other exception. *)
Inductive exn :=
| RequestException (message : string)
| OtherException (message : string).

(** What [requests.post] gives: an exception, or a reply with its status
    code, its text and what [response.json().get("response", ...)] finds: an
    exception, or the field [response] of the object when it has one (a
    string, as the server sends it). *)
Inductive http_reply :=
| Failed (e : exn)
| Response (status_code : Z) (text : string) (json : exn + option string).

Inductive effect :=
| Auth (fx : SupabaseAuth.effect)
| Post (url : string) (token : pyval) (json : IntegrityAssistant.data_block).

(** The object state: the address of the server. The authentication object
    is shared with the assistant and is passed along. *)
Record t := Make {
  api_base_url : string;
  query_endpoint : string
}.

(** [__init__]; [url] is the value of [RAILWAY_API_URL], when it is set. *)
Definition init (url : option string) : t :=
  Make (default "https://integrity-api.railway.app" url) "/api/query".

Definition exn_message (e : exn) : string :=
  match e with
  | RequestException m =>
      "Connection error: Could not connect to the server. " +:+ m
  | OtherException m => "Error processing request: " +:+ m
  end.

(** [send_query(data_block)] *)
Definition send_query (self : t) (auth : SupabaseAuth.t)
    (data_block : IntegrityAssistant.data_block)
    (e : SupabaseAuth.env) (reply : http_reply)
  : SupabaseAuth.t * string * list effect :=
  let '(auth1, token, fx) := SupabaseAuth.get_auth_token auth e in
  let fx := map Auth fx in
  match token with
  | Raise m => (auth1, exn_message (OtherException m), fx)
  | Ok token =>
      if negb (pyval_truthy token)
      then (auth1, "Authentication error: Please log in to your account.", fx)
      else
        let fx := fx ++ [Post (api_base_url self +:+ query_endpoint self)
                              token data_block] in
        match reply with
        | Failed ex => (auth1, exn_message ex, fx)
        | Response status_code text json =>
            if status_code =? 200 then
              match json with
              | inr (Some response) => (auth1, response, fx)
              | inr None => (auth1, "No response content", fx)
              | inl ex => (auth1, exn_message ex, fx)
              end
            else if status_code =? 401 then
              (auth1,
               "Authentication error: Your session has expired. Please log in again.",
               fx)
            else if status_code =? 429 then
              (auth1,
               "Rate limit exceeded: You've reached your daily query limit (100 queries).",
               fx)
            else
              (auth1,
               "Server error (" +:+ str_of_int status_code +:+ "): " +:+ text,
               fx)
        end
  end.

End ApiClient.

(* ================================================================== *)
(** ** main.py and modules/gui.py: the submission of a query           *)
(* ================================================================== *)

Module Query.

Inductive effect :=
| Api (fx : ApiClient.effect)
| Display (response_text : string).   (* [self.gui.display_response] *)

(** [IntegrityAssistant.submit_query(query_text)]. The call of [send_query]
    catches every exception itself, so that the handler of [submit_query]
    is never entered. *)
Definition submit_query (self : IntegrityAssistant.t) (api : ApiClient.t)
    (auth : SupabaseAuth.t) (query_text : string) (clk : clock)
    (e : SupabaseAuth.env) (reply : ApiClient.http_reply)
  : SupabaseAuth.t * list effect :=
  let data_block :=
    IntegrityAssistant.make_data_block self query_text
      (SupabaseAuth.get_user_id auth) clk in
  let '(auth1, response, fx) := ApiClient.send_query api auth data_block e reply in
  if Str.truthy response
  then (auth1, map Api fx ++ [Display response])
  else (auth1, map Api fx ++ [Display "Sorry, I couldn't process your request."]).

End Query.

Module ChatOverlay.

Inductive effect :=
| ChatAppend (html : string)   (* [self.chat_display.append] *)
| ClearInput.                  (* [self.input_field.clear] *)

(** [s.strip()]: the whitespace at both ends removed. *)
Definition strip (s : string) : string :=
  Normalize.trim_right (Normalize.trim_left s).

(** [submit_query()]; [input_text] is the text of the input field. The result
    of the callback is handed back, when it is called. *)
Definition submit_query {R : Type} (input_text : string)
    (submit_callback : option (string -> R)) : list effect * option R :=
  let query_text := strip input_text in
  if negb (Str.truthy query_text) then ([], None)
  else
    ([ChatAppend ("<div style='color:#AAAAFF;'><b>You:</b> " +:+ query_text
                  +:+ "</div>");
      ClearInput;
      ChatAppend "<div style='color:#888888;'><i>Processing...</i></div>"],
     match submit_callback with
     | Some cb => Some (cb query_text)
     | None => None
     end).

End ChatOverlay.

(* ================================================================== *)
(** ** modules/login_dialog.py                                         *)
(* ================================================================== *)

Module LoginDialog.

Inductive effect :=
| Warning (title text : string)            (* [QMessageBox.warning] *)
| Critical (title text : string)           (* [QMessageBox.critical] *)
| SetCursor (wait : bool)                  (* [Qt.WaitCursor] or [Qt.ArrowCursor] *)
| LoginButton (enabled : bool) (text : string)
| Auth (fx : SupabaseAuth.effect)
| LoginSuccessful                          (* [self.login_successful.emit()] *)
| Accept.                                  (* [self.accept()] *)


End LoginDialog.

(** The requests posted, in a trace of [Query.submit_query]. *)
Definition posts (fx : list Query.effect)
  : list (pyval * IntegrityAssistant.data_block) :=
  omap (fun x => match x with
                 | Query.Api (ApiClient.Post _ token block) => Some (token, block)
                 | _ => None
                 end) fx.

(** The messages displayed, in a trace of [Query.submit_query]. *)
Definition displays (fx : list Query.effect) : list string :=
  omap (fun x => match x with
                 | Query.Display text => Some text
                 | _ => None
                 end) fx.

(** A session that holds an access token and is not expired at [now]. *)
Definition valid_session (self : SupabaseAuth.t) (now : Z) (token : pyval) : Prop :=
  exists d expires_at,
    SupabaseAuth.session self = Some d
    /\ d !! "access_token" = Some token
    /\ d !! "expires_at" = Some (PNum expires_at)
    /\ now <= expires_at.

(** For the examples: the answers of the outside at some instant, the same
    answers eighty minutes later, an object that has a client and no
    session, and the same object after a login. *)
Definition answers (now : Z) : SupabaseAuth.env :=
  SupabaseAuth.Env now (inl ("access-1", "refresh-1", "user-1"))
    (inl ("access-2", "refresh-2")) None None true None.

Definition fresh_auth : SupabaseAuth.t := SupabaseAuth.Make true None None.

Definition logged_in : SupabaseAuth.t :=
  fst (fst (SupabaseAuth.login fresh_auth "ann@example.org" "pw" (answers 1000))).

Definition sample_block : IntegrityAssistant.data_block :=
  IntegrityAssistant.make_data_block (IntegrityAssistant.app started)
    "what is on screen?" (Some "user-1") t0.

(* ================================================================== *)
(** * Properties                                                       *)
(* ================================================================== *)

(** ** Strings *)

Example lower_mixed : Str.lower "PassWord: 1" = "password: 1".
Proof. reflexivity. Qed.

Example contains_mid : Str.contains "pin" "spinach" = true.
Proof. reflexivity. Qed.

Example contains_none : Str.contains "passwd" "passwor" = false.
Proof. reflexivity. Qed.

Example replace_key : Str.replace "Key.enter" "Key." "" = "enter".
Proof. reflexivity. Qed.

Example split_words :
  Str.split (String "009" (" ab" +:+ String "010" ("  c d " +:+ String "013" "")))
  = ["ab"; "c"; "d"].
Proof. reflexivity. Qed.

Section SplitJoin.

Import Str Normalize.

Lemma truthy_false (s : string) : truthy s = false -> s = "".
Proof. destruct s; [reflexivity | discriminate]. Qed.

(** The runs found by [split_run] after the head run are non-empty. *)
Lemma split_run_truthy (s : string) :
  Forall (fun w => truthy w = true) (snd (split_run s)).
Proof.
  induction s as [|c s IH]; simpl; [constructor|].
  destruct (split_run s) as [w ws] eqn:E. simpl in IH.
  destruct (isspace c); simpl; [|exact IH].
  unfold cons_run. destruct (truthy w) eqn:Hw; [|exact IH].
  constructor; assumption.
Qed.

Lemma join_truthy (w : string) (ws : list string) :
  truthy w = true -> truthy (join " " (w :: ws)) = true.
Proof.
  intros Hw. destruct w as [|a w]; [discriminate|].
  destruct ws; reflexivity.
Qed.

Lemma join_split_truthy (s : string) :
  truthy (join " " (split s)) = match split s with [] => false | _ => true end.
Proof.
  unfold split. pose proof (split_run_truthy s) as H.
  destruct (split_run s) as [w ws]. simpl in H.
  unfold cons_run. destruct (truthy w) eqn:Hw.
  - apply join_truthy, Hw.
  - destruct H as [|v vs Hv _]; [reflexivity|]. apply join_truthy, Hv.
Qed.

Lemma collapse_true_head (s : string) :
  trim_left (collapse true s) = collapse true s.
Proof.
  induction s as [|c s IH]; simpl; [reflexivity|].
  destruct (isspace c) eqn:Hc; [exact IH|].
  simpl. rewrite Hc. reflexivity.
Qed.

Lemma trim_left_collapse (s : string) :
  trim_left (collapse false s) = collapse true s.
Proof.
  destruct s as [|c s]; simpl; [reflexivity|].
  destruct (isspace c) eqn:Hc.
  - simpl. apply collapse_true_head.
  - simpl. rewrite Hc. reflexivity.
Qed.

(** The two readings of a text, after whitespace and after a character. *)
Lemma trim_right_collapse (s : string) :
  trim_right (collapse true s) = join " " (split s)
  /\ trim_right (collapse false s)
     = join_open (fst (split_run s)) (snd (split_run s)).
Proof.
  induction s as [|c s [IHt IHf]]; [split; reflexivity|].
  pose proof (join_split_truthy s) as Hj.
  unfold split in *. simpl.
  destruct (split_run s) as [w ws] eqn:E. simpl in *.
  destruct (isspace c) eqn:Hc; simpl.
  - split.
    + rewrite IHt. reflexivity.
    + rewrite IHt, Hj.
      destruct (cons_run w ws) as [|v vs]; reflexivity.
  - rewrite Hc. simpl. rewrite IHf.
    split; [|destruct ws; reflexivity].
    destruct ws; reflexivity.
Qed.

Lemma join_split_normalize (s : string) :
  join " " (split s) = normalize s.
Proof.
  unfold normalize. rewrite trim_left_collapse.
  symmetry. apply trim_right_collapse.
Qed.

End SplitJoin.

(** ** The store *)

Section StoreLemmas.

Import Store.
Implicit Types (h : gmap loc pylist) (l : loc) (x : dict).

Lemma read_append l x h :
  is_Some (h !! l) -> read l (append l x h) = read l h ++ [x].
Proof.
  intros [o Ho]. unfold read, append. rewrite Ho, lookup_insert_eq. reflexivity.
Qed.

Lemma history_append l x h :
  is_Some (h !! l) -> history l (append l x h) = history l h ++ [x].
Proof.
  intros [o Ho]. unfold history, append. rewrite Ho, lookup_insert_eq. reflexivity.
Qed.

Lemma read_pop0 l h : read l (pop0 l h) = tail (read l h).
Proof.
  unfold read, pop0. destruct (h !! l) as [o|] eqn:Ho.
  - rewrite lookup_insert_eq. reflexivity.
  - rewrite Ho. reflexivity.
Qed.

Lemma history_pop0 l h : history l (pop0 l h) = history l h.
Proof.
  unfold history, pop0. destruct (h !! l) as [o|] eqn:Ho.
  - rewrite lookup_insert_eq. reflexivity.
  - rewrite Ho. reflexivity.
Qed.

Lemma lookup_append_ne l l' x h : l <> l' -> append l x h !! l' = h !! l'.
Proof.
  intros Hne. unfold append. destruct (h !! l); [|reflexivity].
  apply lookup_insert_ne, Hne.
Qed.

Lemma lookup_pop0_ne l l' h : l <> l' -> pop0 l h !! l' = h !! l'.
Proof.
  intros Hne. unfold pop0. destruct (h !! l); [|reflexivity].
  apply lookup_insert_ne, Hne.
Qed.

Lemma is_Some_append l l' x h : is_Some (h !! l') -> is_Some (append l x h !! l').
Proof.
  intros Hs. unfold append. destruct (h !! l) eqn:Ho; [|exact Hs].
  destruct (decide (l = l')) as [->|Hne].
  - rewrite lookup_insert_eq. eauto.
  - rewrite lookup_insert_ne by exact Hne. exact Hs.
Qed.

Lemma is_Some_pop0 l l' h : is_Some (h !! l') -> is_Some (pop0 l h !! l').
Proof.
  intros Hs. unfold pop0. destruct (h !! l) eqn:Ho; [|exact Hs].
  destruct (decide (l = l')) as [->|Hne].
  - rewrite lookup_insert_eq. eauto.
  - rewrite lookup_insert_ne by exact Hne. exact Hs.
Qed.

(** [bounded_push] on one list leaves every other list as it is. *)
Lemma lookup_bounded_push_ne cap l l' x h :
  l <> l' -> bounded_push cap l x h !! l' = h !! l'.
Proof.
  intros Hne. unfold bounded_push.
  destruct (cap <? len l (append l x h)).
  - rewrite lookup_pop0_ne by exact Hne. apply lookup_append_ne, Hne.
  - apply lookup_append_ne, Hne.
Qed.

Lemma is_Some_bounded_push cap l l' x h :
  is_Some (h !! l') -> is_Some (bounded_push cap l x h !! l').
Proof.
  intros Hs. unfold bounded_push.
  destruct (cap <? len l (append l x h)).
  - apply is_Some_pop0, is_Some_append, Hs.
  - apply is_Some_append, Hs.
Qed.

Lemma history_bounded_push cap l x h :
  is_Some (h !! l) ->
  history l (bounded_push cap l x h) = history l h ++ [x].
Proof.
  intros Hs. unfold bounded_push.
  destruct (cap <? len l (append l x h)).
  - rewrite history_pop0. apply history_append, Hs.
  - apply history_append, Hs.
Qed.

Lemma read_bounded_push cap l x h :
  is_Some (h !! l) ->
  read l (bounded_push cap l x h)
  = if cap <? Z.of_nat (length (read l h ++ [x]))
    then tail (read l h ++ [x]) else read l h ++ [x].
Proof.
  intros Hs. unfold bounded_push, len. rewrite (read_append _ _ _ Hs).
  destruct (cap <? _).
  - rewrite read_pop0, (read_append _ _ _ Hs). reflexivity.
  - apply read_append, Hs.
Qed.

Lemma tail_drop {A} (xs : list A) (n : nat) : tail (drop n xs) = drop (S n) xs.
Proof.
  revert n. induction xs as [|a xs IH]; intros [|n]; simpl; try reflexivity.
  apply IH.
Qed.

(** The most-recent-[cap] shape is kept by [bounded_push]. *)
Lemma recent_bounded_push (cap : nat) l x h :
  is_Some (h !! l) -> recent cap l h ->
  recent cap l (bounded_push (Z.of_nat cap) l x h).
Proof.
  intros Hs Hr. unfold recent in *.
  rewrite (read_bounded_push _ _ _ _ Hs), (history_bounded_push _ _ _ _ Hs), Hr.
  set (log := history l h) in *.
  rewrite !length_app, length_drop. simpl.
  destruct (Z.ltb_spec (Z.of_nat cap) (Z.of_nat (length log - (length log - cap) + 1))) as [Hlt|Hge].
  - assert (Hc : (cap <= length log)%nat) by lia.
    replace (length log + 1 - cap)%nat with (S (length log - cap)) by lia.
    rewrite <- tail_drop. rewrite drop_app_le by lia. reflexivity.
  - assert (Hc : (length log < cap)%nat) by lia.
    replace (length log - cap)%nat with 0%nat by lia.
    replace (length log + 1 - cap)%nat with 0%nat by lia.
    rewrite !drop_0. reflexivity.
Qed.

Lemma recent_length (cap : nat) l h :
  recent cap l h -> (length (read l h) <= cap)%nat.
Proof. intros Hr. rewrite Hr, length_drop. lia. Qed.

Lemma last_read_bounded_push cap l x h :
  0 < cap -> is_Some (h !! l) ->
  last (read l (bounded_push cap l x h)) = Some x.
Proof.
  intros Hcap Hs. rewrite (read_bounded_push _ _ _ _ Hs).
  destruct (Z.ltb_spec cap (Z.of_nat (length (read l h ++ [x])))) as [Hlt|Hge];
    [|apply last_snoc].
  rewrite length_app in Hlt. simpl in Hlt.
  destruct (read l h) as [|a xs]; [simpl in Hlt; lia|].
  simpl. apply last_snoc.
Qed.

End StoreLemmas.

(** ** The keystroke logger *)

Section LoggerLemmas.

Import Store KeystrokeLogger.
Implicit Types (self : KeystrokeLogger.t) (h : gmap loc pylist) (k : key).

Lemma check_sensitive_eq self :
  _check_sensitive_context self
  = if has_marker (buffer self) then set_sensitive_mode self true else self.
Proof. reflexivity. Qed.

Lemma check_sensitive_mode self :
  sensitive_mode (_check_sensitive_context self)
  = has_marker (buffer self) || sensitive_mode self.
Proof. rewrite check_sensitive_eq. destruct (has_marker (buffer self)); reflexivity. Qed.

Lemma check_sensitive_frame self :
  let self1 := _check_sensitive_context self in
  running self1 = running self /\ callback self1 = callback self
  /\ buffer self1 = buffer self /\ last_timestamp self1 = last_timestamp self.
Proof. rewrite check_sensitive_eq. destruct (has_marker (buffer self)); auto. Qed.

Lemma flush_state self now h :
  fst (_flush_buffer self now h)
  = Make (running self) (callback self) "" (time_time now) (sensitive_mode self).
Proof. reflexivity. Qed.

Lemma flush_store self now h :
  snd (_flush_buffer self now h)
  = match callback self with
    | Some cb => if Str.truthy (buffer self) then cb (buffer self) now h else h
    | None => h
    end.
Proof. reflexivity. Qed.

Lemma flush_emits self now h : emits self now h (snd (_flush_buffer self now h)).
Proof.
  rewrite flush_store. unfold emits.
  destruct (callback self) as [cb|] eqn:Hcb; [|left; reflexivity].
  destruct (Str.truthy (buffer self)) eqn:Hb; [|left; reflexivity].
  right. exists cb, (buffer self). auto.
Qed.

Lemma emits_callback self self' now h h' :
  callback self' = callback self -> emits self' now h h' -> emits self now h h'.
Proof. unfold emits. intros ->. auto. Qed.

(** The two outcomes of a key press that is handled: the token joins the
    buffer, and the buffer is then flushed or not. *)
Lemma press_cases self k now h :
  running self = true ->
  let self1 := fst (press_token self k) in
  let self2 := set_buffer self1 (buffer self +:+ snd (press_token self k)) in
  _on_key_press self k now h = (self2, h)
  \/ _on_key_press self k now h = _flush_buffer self2 now h.
Proof.
  intros Hr. unfold _on_key_press. rewrite Hr. simpl.
  destruct (check_sensitive_frame self) as (_ & _ & Hb & _). simpl in Hb.
  rewrite Hb.
  match goal with |- context [if ?c then _ else _] => destruct c end; auto.
Qed.

Lemma press_emits self k now h :
  emits self now h (snd (_on_key_press self k now h)).
Proof.
  destruct (running self) eqn:Hr.
  - destruct (press_cases self k now h Hr) as [-> | ->]; [left; reflexivity|].
    destruct (check_sensitive_frame self) as (_ & Hc & _).
    eapply emits_callback; [|apply flush_emits]. exact Hc.
  - unfold _on_key_press. rewrite Hr. left. reflexivity.
Qed.

Lemma release_eq self k now h :
  _on_key_release self k now h
  = if is_key k "enter" || is_key k "tab"
    then _flush_buffer self now h else (self, h).
Proof.
  unfold _on_key_release.
  destruct (is_key k "enter" || is_key k "tab");
    simpl; rewrite andb_false_r; reflexivity.
Qed.

Lemma release_emits self k now h :
  emits self now h (snd (_on_key_release self k now h)).
Proof.
  rewrite release_eq. destruct (is_key k "enter" || is_key k "tab").
  - apply flush_emits.
  - left. reflexivity.
Qed.

Lemma stop_emits self now h : emits self now h (snd (stop self now h)).
Proof.
  unfold stop. simpl. destruct (Str.truthy (buffer self)).
  - apply (flush_emits (set_running self false)).
  - left. reflexivity.
Qed.

(** Every handler keeps the callback. *)
Lemma press_callback self k now h :
  callback (fst (_on_key_press self k now h)) = callback self.
Proof.
  destruct (check_sensitive_frame self) as (_ & Hc & _).
  destruct (running self) eqn:Hr.
  - destruct (press_cases self k now h Hr) as [-> | ->]; exact Hc.
  - unfold _on_key_press. rewrite Hr. reflexivity.
Qed.

Lemma release_callback self k now h :
  callback (fst (_on_key_release self k now h)) = callback self.
Proof.
  rewrite release_eq. destruct (is_key k "enter" || is_key k "tab"); reflexivity.
Qed.

Lemma stop_callback self now h : callback (fst (stop self now h)) = callback self.
Proof. unfold stop. simpl. destruct (Str.truthy (buffer self)); reflexivity. Qed.

(** Every handler keeps the running flag, but [stop], which clears it. *)
Lemma press_running self k now h :
  running (fst (_on_key_press self k now h)) = running self.
Proof.
  destruct (check_sensitive_frame self) as (Hc & _).
  destruct (running self) eqn:Hr.
  - destruct (press_cases self k now h Hr) as [-> | ->]; simpl; congruence.
  - unfold _on_key_press. rewrite Hr. simpl. exact Hr.
Qed.

Lemma release_running self k now h :
  running (fst (_on_key_release self k now h)) = running self.
Proof.
  rewrite release_eq. destruct (is_key k "enter" || is_key k "tab"); reflexivity.
Qed.

Lemma stop_running self now h : running (fst (stop self now h)) = false.
Proof. unfold stop. simpl. destruct (Str.truthy (buffer self)); reflexivity. Qed.

Lemma stop_buffer self now h : buffer (fst (stop self now h)) = "".
Proof.
  unfold stop. simpl. destruct (Str.truthy (buffer self)) eqn:Hb; [reflexivity|].
  simpl. apply truthy_false, Hb.
Qed.

(** No handler clears the sensitive mode. *)
Lemma press_sensitive self k now h :
  sensitive_mode self = true ->
  sensitive_mode (fst (_on_key_press self k now h)) = true.
Proof.
  intros Hs. pose proof (check_sensitive_mode self) as Hc.
  rewrite Hs, orb_true_r in Hc.
  destruct (running self) eqn:Hr.
  - destruct (press_cases self k now h Hr) as [-> | ->]; exact Hc.
  - unfold _on_key_press. rewrite Hr. exact Hs.
Qed.

Lemma release_sensitive self k now h :
  sensitive_mode (fst (_on_key_release self k now h)) = sensitive_mode self.
Proof.
  rewrite release_eq. destruct (is_key k "enter" || is_key k "tab"); reflexivity.
Qed.

Lemma stop_sensitive self now h :
  sensitive_mode (fst (stop self now h)) = sensitive_mode self.
Proof. unfold stop. simpl. destruct (Str.truthy (buffer self)); reflexivity. Qed.

Lemma start_sensitive self cb :
  sensitive_mode (start self cb) = sensitive_mode self.
Proof. unfold start. destruct (running self); reflexivity. Qed.

End LoggerLemmas.

(** ** The system *)

Section SystemLemmas.

Import Store IntegrityAssistant.
Context {Image : Type} (image_to_string : Image -> string + string).
Implicit Types (w : world) (e : event (Image := Image)).

Abbreviation step := (step image_to_string).
Abbreviation run := (run image_to_string).

Lemma on_keystroke_eq (self : IntegrityAssistant.t) s now h :
  on_keystroke self s now h
  = bounded_push 100 (keystrokes self) (keystroke_entry (strftime now) s) h.
Proof. reflexivity. Qed.

Lemma capture_cycle_eq (self : IntegrityAssistant.t) grab now h :
  capture_cycle image_to_string self grab now h
  = let text := fst (ScreenCapture.extract_text image_to_string grab) in
    if Str.truthy text
    then bounded_push 30 (screen_texts self) (screen_entry (strftime now) text) h
    else h.
Proof. reflexivity. Qed.

Lemma run_cons w e evs : run w (e :: evs) = run (step w e) evs.
Proof. reflexivity. Qed.

(** The two fields that hold the lists are never assigned again. *)
Lemma step_locs w e :
  screen_texts (app (step w e)) = screen_texts (app w)
  /\ keystrokes (app (step w e)) = keystrokes (app w).
Proof.
  destruct e; simpl; auto.
  - destruct (running (app w)); auto.
  - destruct (running (app w)); auto.
Qed.

Lemma run_locs w evs :
  screen_texts (app (run w evs)) = screen_texts (app w)
  /\ keystrokes (app (run w evs)) = keystrokes (app w).
Proof.
  revert w. induction evs as [|e evs IH]; intros w; [auto|].
  rewrite run_cons. destruct (IH (step w e)) as [-> ->]. apply step_locs.
Qed.

Lemma emits_heap_step w now h' :
  wf w -> emits (logger w) now (heap w) h' -> heap_step w h'.
Proof.
  intros (_ & _ & _ & _ & _ & Hcb) [-> | (cb & s & Hc & Hs & ->)];
    [constructor|].
  rewrite Hc in Hcb. rewrite Hcb, on_keystroke_eq. constructor. exact Hs.
Qed.

Lemma step_heap w e : wf w -> heap_step w (heap (step w e)).
Proof.
  intros Hwf. destruct e as [|now|grab now|k now|k now]; simpl.
  - destruct (running (app w)); simpl; apply heap_same.
  - eapply emits_heap_step; [exact Hwf|]. apply stop_emits.
  - destruct (running (app w)); [|apply heap_same]. simpl.
    rewrite capture_cycle_eq. cbv zeta.
    destruct (Str.truthy _) eqn:Ht; [apply heap_screen, Ht | apply heap_same].
  - eapply emits_heap_step; [exact Hwf|]. apply press_emits.
  - eapply emits_heap_step; [exact Hwf|]. apply release_emits.
Qed.

Lemma heap_step_alloc w h' l :
  heap_step w h' -> is_Some (heap w !! l) -> is_Some (h' !! l).
Proof. intros [| |] Hs; auto using is_Some_bounded_push. Qed.

Lemma init_wf now : wf (init now).
Proof.
  unfold wf, init. simpl. repeat split; done.
Qed.

Lemma step_wf w e : wf w -> wf (step w e).
Proof.
  intros Hwf. pose proof (step_heap w e Hwf) as Hh.
  pose proof (step_locs w e) as [Hl1 Hl2].
  destruct Hwf as (Hne & Ha1 & Ha2 & Hrun & Hidle & Hcb).
  unfold wf. rewrite Hl1, Hl2.
  split; [exact Hne|].
  split; [eapply heap_step_alloc; eauto|].
  split; [eapply heap_step_alloc; eauto|].
  clear Hh Hl1 Hl2.
  destruct e as [|now|grab now|k now|k now]; simpl.
  - destruct (running (app w)) eqn:Hr.
    + rewrite Hr. auto.
    + simpl. unfold KeystrokeLogger.start. rewrite Hrun. simpl.
      repeat split; intros; try discriminate; reflexivity.
  - rewrite stop_running, stop_buffer, stop_callback.
    repeat split. destruct (KeystrokeLogger.callback (logger w)); [|reflexivity].
    intros. rewrite Hcb. reflexivity.
  - destruct (running (app w)) eqn:Hr; simpl; rewrite ?Hr; auto.
  - rewrite press_running, press_callback. split; [exact Hrun|]. split; [|exact Hcb].
    intros Hr. unfold KeystrokeLogger._on_key_press. rewrite Hr. simpl. auto.
  - rewrite release_running, release_callback. split; [exact Hrun|]. split; [|exact Hcb].
    intros Hr. rewrite release_eq.
    destruct (is_key k "enter" || is_key k "tab"); simpl; auto.
Qed.

Lemma run_wf w evs : wf w -> wf (run w evs).
Proof.
  revert w. induction evs as [|e evs IH]; intros w Hwf; [exact Hwf|].
  rewrite run_cons. apply IH, step_wf, Hwf.
Qed.

(** A property of the store that the two kinds of push keep holds all
    along a run. *)
Lemma run_heap_invariant (P : loc -> loc -> gmap loc pylist -> Prop) :
  (forall st ks s ts h,
      st <> ks -> is_Some (h !! st) -> is_Some (h !! ks) ->
      Str.truthy s = true -> P st ks h ->
      P st ks (bounded_push 100 ks (keystroke_entry ts s) h)) ->
  (forall st ks t ts h,
      st <> ks -> is_Some (h !! st) -> is_Some (h !! ks) ->
      Str.truthy t = true -> P st ks h ->
      P st ks (bounded_push 30 st (screen_entry ts t) h)) ->
  forall evs w,
    wf w ->
    P (screen_texts (app w)) (keystrokes (app w)) (heap w) ->
    P (screen_texts (app (run w evs))) (keystrokes (app (run w evs)))
      (heap (run w evs)).
Proof.
  intros Hkey Hscr. induction evs as [|e evs IH]; intros w Hwf HP; [exact HP|].
  rewrite run_cons. apply IH; [apply step_wf, Hwf|].
  destruct (step_locs w e) as [-> ->].
  pose proof Hwf as (Hne & Ha1 & Ha2 & _).
  destruct (step_heap w e Hwf); auto.
Qed.

End SystemLemmas.

(** ** The rolling lists *)

Section Buffers.

Import Store IntegrityAssistant.
Context {Image : Type} (image_to_string : Image -> string + string).

Abbreviation run := (run image_to_string).

Lemma recent_frame (cap : nat) l (h h' : gmap loc pylist) :
  h' !! l = h !! l -> recent cap l h -> recent cap l h'.
Proof. unfold recent, read, history. intros ->. auto. Qed.

Lemma read_frame l (h h' : gmap loc pylist) :
  h' !! l = h !! l -> read l h' = read l h /\ history l h' = history l h.
Proof. unfold read, history. intros ->. auto. Qed.

Lemma Forall_read_bounded_push (P : dict -> Prop) cap l x (h : gmap loc pylist) :
  is_Some (h !! l) -> P x ->
  Forall P (read l h) -> Forall P (read l (bounded_push cap l x h)).
Proof.
  intros Hs Hx Hall. rewrite (read_bounded_push _ _ _ _ Hs).
  assert (Happ : Forall P (read l h ++ [x])).
  { apply Forall_app. split; [exact Hall|]. constructor; [exact Hx|constructor]. }
  destruct (cap <? _); [|exact Happ].
  destruct (read l h ++ [x]) as [|a xs]; [constructor|].
  simpl. apply (Forall_inv_tail Happ).
Qed.

(** C7. Bounded-buffer invariant: after every sequence of capture turns and
    key events, the screen list holds at most 30 entries and the keystroke
    list at most 100, and each list is made of the most recent 30 (100) of
    the entries ever appended to it, in the order of their insertion: the
    oldest are the ones that went. *)
Theorem bounded_buffer_invariant (now : clock) (evs : list event) :
  let w := run (init now) evs in
  let st := screen_texts (app w) in
  let ks := keystrokes (app w) in
  len st (heap w) <= 30
  /\ len ks (heap w) <= 100
  /\ read st (heap w)
     = drop (length (history st (heap w)) - 30) (history st (heap w))
  /\ read ks (heap w)
     = drop (length (history ks (heap w)) - 100) (history ks (heap w)).
Proof.
  cbv zeta.
  assert (H : recent 30 (screen_texts (app (run (init now) evs)))
                (heap (run (init now) evs))
              /\ recent 100 (keystrokes (app (run (init now) evs)))
                   (heap (run (init now) evs))).
  { apply (run_heap_invariant image_to_string
             (fun st ks h => recent 30 st h /\ recent 100 ks h)).
    - intros st ks s ts h Hne Hst Hks _ [Hr1 Hr2]. split.
      + eapply recent_frame; [|exact Hr1]. apply lookup_bounded_push_ne. auto.
      + change 100 with (Z.of_nat 100). apply recent_bounded_push; assumption.
    - intros st ks t ts h Hne Hst Hks _ [Hr1 Hr2]. split.
      + change 30 with (Z.of_nat 30). apply recent_bounded_push; assumption.
      + eapply recent_frame; [|exact Hr2]. apply lookup_bounded_push_ne. auto.
    - apply init_wf.
    - split; reflexivity. }
  destruct H as [H1 H2].
  pose proof (recent_length _ _ _ H1). pose proof (recent_length _ _ _ H2).
  unfold len. repeat split; try lia; assumption.
Qed.

Lemma screen_entry_nonempty ts t :
  Str.truthy t = true -> field_nonempty "text" (screen_entry ts t).
Proof. intros Ht. exists t. split; [reflexivity|]. intros ->. discriminate. Qed.

Lemma keystroke_entry_nonempty ts s :
  Str.truthy s = true -> field_nonempty "content" (keystroke_entry ts s).
Proof. intros Hs. exists s. split; [reflexivity|]. intros ->. discriminate. Qed.

(** C10. Non-empty entries: a flush with an empty buffer leaves the store
    as it is, a capture turn whose extracted text is empty leaves it as it
    is, and after every sequence of events each entry in the screen list,
    and each entry ever appended to it, has a non-empty [text], each entry
    in the keystroke list, and each entry ever appended to it, a non-empty
    [content]. *)
Theorem entries_nonempty (now : clock) (evs : list event) :
  let w := run (init now) evs in
  let st := screen_texts (app w) in
  let ks := keystrokes (app w) in
  (forall self t h,
      KeystrokeLogger.buffer self = "" ->
      snd (KeystrokeLogger._flush_buffer self t h) = h)
  /\ (forall self grab t h,
      fst (ScreenCapture.extract_text image_to_string grab) = "" ->
      capture_cycle image_to_string self grab t h = h)
  /\ Forall (field_nonempty "text") (read st (heap w))
  /\ Forall (field_nonempty "text") (history st (heap w))
  /\ Forall (field_nonempty "content") (read ks (heap w))
  /\ Forall (field_nonempty "content") (history ks (heap w)).
Proof.
  cbv zeta. split; [|split].
  - intros self t h Hb. rewrite flush_store, Hb.
    destruct (KeystrokeLogger.callback self); reflexivity.
  - intros self grab t h Ht. rewrite capture_cycle_eq. cbv zeta.
    rewrite Ht. reflexivity.
  - apply (run_heap_invariant image_to_string
             (fun st ks h =>
                Forall (field_nonempty "text") (read st h)
                /\ Forall (field_nonempty "text") (history st h)
                /\ Forall (field_nonempty "content") (read ks h)
                /\ Forall (field_nonempty "content") (history ks h))).
    + intros st ks s ts h Hne Hst Hks Hs (H1 & H2 & H3 & H4).
      destruct (read_frame st h (bounded_push 100 ks (keystroke_entry ts s) h))
        as [-> ->]; [apply lookup_bounded_push_ne; auto|].
      repeat split; try assumption.
      * apply Forall_read_bounded_push;
          auto using keystroke_entry_nonempty.
      * rewrite history_bounded_push by assumption.
        apply Forall_app. split; [assumption|].
        constructor; [apply keystroke_entry_nonempty, Hs|constructor].
    + intros st ks t ts h Hne Hst Hks Ht (H1 & H2 & H3 & H4).
      destruct (read_frame ks h (bounded_push 30 st (screen_entry ts t) h))
        as [-> ->]; [apply lookup_bounded_push_ne; auto|].
      repeat split; try assumption.
      * apply Forall_read_bounded_push;
          auto using screen_entry_nonempty.
      * rewrite history_bounded_push by assumption.
        apply Forall_app. split; [assumption|].
        constructor; [apply screen_entry_nonempty, Ht|constructor].
    + apply init_wf.
    + repeat split; constructor.
Qed.

End Buffers.

(** ** The text extractor *)

Section TextExtractor.

Import ScreenCapture.
Context {Image : Type} (image_to_string : Image -> string + string).

(** C8. Text Extractor contract: without an image the result is the empty
    string and the OCR engine is not called; with an image the engine is
    called once; when it fails the result is the empty string, the error is
    printed and nothing is raised; when it succeeds the result is its output
    with every run of whitespace collapsed to one space and the whitespace
    in front and at the end removed. *)
Theorem extract_text_contract :
  extract_text image_to_string None = ("", [])
  /\ forall img,
      extract_text image_to_string (Some img)
      = match image_to_string img with
        | inl text => (Normalize.normalize text, [OcrCall img])
        | inr e => ("", [OcrCall img; Print ("Error extracting text: " +:+ e)])
        end.
Proof.
  split; [reflexivity|]. intros img. simpl.
  destruct (image_to_string img) as [text|e]; [|reflexivity].
  rewrite join_split_normalize. reflexivity.
Qed.

End TextExtractor.

(** ** The redaction state *)

Section Redaction.

Import Store KeystrokeLogger IntegrityAssistant.
Context {Image : Type} (image_to_string : Image -> string + string).

Abbreviation step := (step image_to_string).
Abbreviation run := (run image_to_string).

Lemma step_sensitive (w : world) e :
  sensitive_mode (logger w) = true -> sensitive_mode (logger (step w e)) = true.
Proof.
  intros Hs. destruct e as [|now|grab now|k now|k now]; simpl.
  - destruct (IntegrityAssistant.running (app w)); [exact Hs|].
    simpl. rewrite start_sensitive. exact Hs.
  - rewrite stop_sensitive. exact Hs.
  - destruct (IntegrityAssistant.running (app w)); exact Hs.
  - apply press_sensitive, Hs.
  - rewrite release_sensitive. exact Hs.
Qed.

Lemma run_sensitive (w : world) evs :
  sensitive_mode (logger w) = true -> sensitive_mode (logger (run w evs)) = true.
Proof.
  revert w. induction evs as [|e evs IH]; intros w Hs; [exact Hs|].
  rewrite run_cons. apply IH, step_sensitive, Hs.
Qed.

Lemma press_token_masked self k :
  has_marker (buffer self) || sensitive_mode self = true ->
  snd (press_token self k) = "*".
Proof.
  intros H. unfold press_token. simpl.
  rewrite check_sensitive_mode, H. reflexivity.
Qed.

Lemma press_appends_masked self k now h :
  KeystrokeLogger.running self = true ->
  has_marker (buffer self) || sensitive_mode self = true ->
  press_appends self k now h "*".
Proof.
  intros Hr Hm. unfold press_appends.
  rewrite <- (press_token_masked self k Hm). apply press_cases, Hr.
Qed.

(** C9. Sensitive-mode monotonicity: the query for the held keys returns
    the empty list in every state, and once the sensitive mode is set no
    sequence of events (start, stop, capture turns, presses, releases of any
    key, Tab included, and the flushes they make) clears it. *)
Theorem sensitive_mode_never_cleared (w : world) (evs : list event) :
  sensitive_mode (logger w) = true ->
  (forall self, _active_keys self = [])
  /\ sensitive_mode (logger (run w evs)) = true.
Proof.
  intros Hs. split; [reflexivity|]. apply run_sensitive, Hs.
Qed.

(** C3. Redaction latch: when a key press is handled while the buffer holds
    a sensitive marker, that press adds the mask [*] to the buffer, the
    sensitive mode is set after it and stays set through every later
    sequence of events, flushes included, and every later key press adds
    the mask [*] to the buffer when it is handled, and nothing at all when
    it is not (the logger being stopped). *)
Theorem redaction_latch (w : world) (k : key) (now : clock)
    (evs : list event) (k' : key) (now' : clock) :
  KeystrokeLogger.running (logger w) = true ->
  has_marker (buffer (logger w)) = true ->
  press_appends (logger w) k now (heap w) "*"
  /\ let w' := run (step w (KeyPress k now)) evs in
     sensitive_mode (logger w') = true
     /\ (KeystrokeLogger.running (logger w') = true ->
         press_appends (logger w') k' now' (heap w') "*")
     /\ (KeystrokeLogger.running (logger w') = false ->
         step w' (KeyPress k' now') = w').
Proof.
  intros Hr Hm. split.
  { apply press_appends_masked; [exact Hr|]. rewrite Hm. reflexivity. }
  cbv zeta.
  assert (Hs : sensitive_mode (logger (run (step w (KeyPress k now)) evs)) = true).
  { apply run_sensitive. simpl.
    destruct (press_cases (logger w) k now (heap w) Hr) as [-> | ->]; simpl;
      rewrite check_sensitive_mode, Hm; reflexivity. }
  split; [exact Hs|]. split.
  - intros Hr'. apply press_appends_masked; [exact Hr'|].
    rewrite Hs. apply orb_true_r.
  - intros Hr'. destruct (run (step w (KeyPress k now)) evs) as [a lg h].
    simpl in *. unfold with_logger, _on_key_press. rewrite Hr'. reflexivity.
Qed.

(** C4 (amended). Flush postcondition: every flush empties the buffer and
    sets the time of the last flush to the current time; it leaves the
    sensitive mode, the running flag and the callback as they were. *)
Theorem flush_postcondition (self : KeystrokeLogger.t) (now : clock)
    (h : gmap loc pylist) :
  let self' := fst (_flush_buffer self now h) in
  buffer self' = ""
  /\ last_timestamp self' = time_time now
  /\ sensitive_mode self' = sensitive_mode self
  /\ KeystrokeLogger.running self' = KeystrokeLogger.running self
  /\ callback self' = callback self.
Proof. cbv zeta. rewrite flush_state. auto. Qed.

End Redaction.

(** ** Key presses, case by case *)

Section Presses.

Import Store KeystrokeLogger IntegrityAssistant.
Implicit Types (self : KeystrokeLogger.t) (h : gmap loc pylist) (k : key).

Lemma press_token_eq self k :
  press_token self k
  = (KeystrokeLogger.Make (KeystrokeLogger.running self) (callback self)
       (buffer self) (last_timestamp self)
       (has_marker (buffer self) || sensitive_mode self),
     if has_marker (buffer self) || sensitive_mode self then "*" else key_repr k).
Proof.
  unfold press_token. rewrite check_sensitive_mode, check_sensitive_eq.
  destruct self as [r cb b lt sm]. simpl.
  destruct (has_marker b); [|reflexivity]. simpl. reflexivity.
Qed.

Lemma key_repr_special k : special k = true -> key_repr k = bracketed k.
Proof.
  destruct k as [[c|] p|n]; simpl; try reflexivity.
  intros Hc. unfold key_repr. destruct (Str.truthy c); [discriminate|reflexivity].
Qed.

Lemma key_repr_char c : Str.truthy c = true -> key_repr (char_key c) = c.
Proof. intros Hc. unfold key_repr, char_key. rewrite Hc. reflexivity. Qed.

(** A press that meets none of the three flush conditions only extends the
    buffer. *)
Lemma press_no_flush self k now h :
  KeystrokeLogger.running self = true ->
  (1 <? time_time now - last_timestamp self)%float = false ->
  Str.startswith (snd (press_token self k)) "[" = false ->
  Z.of_nat (String.length (buffer self +:+ snd (press_token self k))) <= 20 ->
  _on_key_press self k now h
  = (set_buffer (fst (press_token self k))
       (buffer self +:+ snd (press_token self k)), h).
Proof.
  intros Hr Ht Hb Hl. unfold _on_key_press. rewrite Hr. simpl negb. cbv iota.
  rewrite press_token_eq in *. simpl in *.
  rewrite Ht, Hb, (proj2 (Z.ltb_ge _ _) Hl).
  reflexivity.
Qed.

Lemma startswith_bracketed k : Str.startswith (bracketed k) "[" = true.
Proof.
  unfold bracketed, Str.startswith. simpl.
  destruct (Str.replace (str_of_key k) "Key." "" +:+ "]"); reflexivity.
Qed.

Lemma truthy_append_bracketed s k : Str.truthy (s +:+ bracketed k) = true.
Proof. destruct s; reflexivity. Qed.

(** A press of a special key outside the sensitive mode adds the bracketed
    name and flushes. *)
Lemma press_special self k now h :
  KeystrokeLogger.running self = true ->
  sensitive_mode self = false ->
  has_marker (buffer self) = false ->
  special k = true ->
  _on_key_press self k now h
  = _flush_buffer (set_buffer self (buffer self +:+ bracketed k)) now h.
Proof.
  intros Hr Hs Hm Hk. unfold _on_key_press. rewrite Hr. simpl negb. cbv iota.
  rewrite press_token_eq, Hm, Hs, (key_repr_special k Hk).
  cbn [orb fst snd buffer set_buffer]. rewrite startswith_bracketed, orb_true_r.
  destruct self as [r cb b lt sm]. simpl in *. subst. reflexivity.
Qed.

End Presses.

(** ** Scenarios on the running system *)

Section Scenarios.

Import Store KeystrokeLogger IntegrityAssistant.
Context {Image : Type} (image_to_string : Image -> string + string).

Abbreviation step := (step image_to_string).
Abbreviation run := (run image_to_string).

(** One press of a printable key that triggers no flush, on a world given
    field by field. *)
Lemma press_char_world a cb b lt sm h c now b' sm' :
  (1 <? time_time now - lt)%float = false ->
  Str.truthy c = true ->
  sm' = has_marker b || sm ->
  b' = b +:+ (if sm' then "*" else c) ->
  Str.startswith (if sm' then "*" else c) "[" = false ->
  Z.of_nat (String.length b') <= 20 ->
  step (World a (KeystrokeLogger.Make true cb b lt sm) h) (KeyPress (char_key c) now)
  = World a (KeystrokeLogger.Make true cb b' lt sm') h.
Proof.
  intros Ht Hc -> -> Hb Hl.
  assert (Htok : press_token (KeystrokeLogger.Make true cb b lt sm) (char_key c)
                 = (KeystrokeLogger.Make true cb b lt (has_marker b || sm),
                    if has_marker b || sm then "*" else c)).
  { rewrite press_token_eq, (key_repr_char c Hc). reflexivity. }
  cbn [IntegrityAssistant.step logger heap app]. unfold with_logger.
  rewrite press_no_flush; rewrite ?Htok; auto.
Qed.

(** In a world the system goes through, a running logger calls
    [on_keystroke]. *)
Lemma wf_callback (w : world) :
  wf w -> KeystrokeLogger.running (logger w) = true ->
  exists cb, callback (logger w) = Some cb
             /\ forall s now h, cb s now h = on_keystroke (app w) s now h.
Proof.
  intros (_ & _ & _ & _ & _ & Hcb) Hr.
  destruct (callback (logger w)) as [cb|]; [eauto|congruence].
Qed.

Lemma last_on_keystroke (w : world) s now :
  wf w ->
  last (read (keystrokes (app w)) (on_keystroke (app w) s now (heap w)))
  = Some (keystroke_entry (strftime now) s).
Proof.
  intros (_ & _ & Hks & _). rewrite on_keystroke_eq.
  apply last_read_bounded_push; [lia|exact Hks].
Qed.

(** C6 (amended). Password scenario: in a running logger outside the
    sensitive mode and with an empty buffer, the presses p, a, s, s, w, o,
    r, d, 1, 2, 3, each handled without the elapsed-time test firing (the
    difference of the clock and the time of the last flush, as the program
    computes it, is not above one second), store nothing and leave the
    buffer at [password***]: the check made at each press reads the buffer
    before the key joins it, so the eight letters are kept and the three
    digits are masked. A flush made without a further key press (a bare
    flush, a stop, the release of Enter or of Tab) calls [on_keystroke]
    once, with exactly [password***], which becomes the content of the
    newest entry of the keystroke list. A further key press adds its own
    mask first: it stores nothing, or flushes [password****]. *)
Theorem password_scenario (now0 : clock) (evs : list event)
    (cs : list clock) (now : clock) (k : key) :
  let w := run (init now0) evs in
  KeystrokeLogger.running (logger w) = true ->
  sensitive_mode (logger w) = false ->
  buffer (logger w) = "" ->
  length cs = 11%nat ->
  Forall (fun c =>
            (1 <? time_time c - last_timestamp (logger w))%float = false) cs ->
  let w' := run w (type_keys (password_keys ++ ["1"; "2"; "3"]) cs) in
  buffer (logger w') = "password***"
  /\ heap w' = heap w
  /\ snd (_flush_buffer (logger w') now (heap w'))
     = on_keystroke (app w) "password***" now (heap w)
  /\ heap (step w' (Stop now))
     = on_keystroke (app w) "password***" now (heap w)
  /\ last (read (keystrokes (app w)) (heap (step w' (Stop now))))
     = Some (keystroke_entry (strftime now) "password***")
  /\ (is_key k "enter" || is_key k "tab" = true ->
      heap (step w' (KeyRelease k now))
      = on_keystroke (app w) "password***" now (heap w))
  /\ press_appends (logger w') k now (heap w') "*"
  /\ (heap (step w' (KeyPress k now)) = heap w
      \/ heap (step w' (KeyPress k now))
         = on_keystroke (app w) "password****" now (heap w)).
Proof.
  cbv zeta. intros Hr Hs Hb Hlen Hall.
  pose proof (run_wf image_to_string _ evs (init_wf now0)) as Hwf.
  destruct (wf_callback _ Hwf Hr) as (cb & Hcb & Hcall).
  pose proof (last_on_keystroke _ "password***" now Hwf) as Hlast.
  destruct (run (init now0) evs) as [a [r f b lt sm] h].
  simpl in Hr, Hs, Hb, Hcb, Hcall, Hall, Hlast. subst r sm b f.
  do 11 (destruct cs as [|? cs]; [discriminate|]).
  destruct cs; [|discriminate]. clear Hlen.
  repeat match goal with
         | H : Forall _ (_ :: _) |- _ =>
             apply Forall_cons in H; destruct H as [? H]
         end.
  unfold type_keys, password_keys. simpl zip_with.
  do 11 (rewrite run_cons;
         erewrite press_char_world;
         [ | assumption | reflexivity | reflexivity | reflexivity
           | vm_compute; reflexivity | vm_compute; discriminate ]).
  match goal with
  | |- context [run ?x []] =>
      replace x with (World a (KeystrokeLogger.Make true (Some cb)
                                 "password***" lt true) h)
        by (f_equal; f_equal; vm_compute; reflexivity)
  end.
  set (lg := KeystrokeLogger.Make true (Some cb) "password***" lt true).
  change (run (World a lg h) []) with (World a lg h).
  cbn [logger heap app].
  split; [reflexivity|]. split; [reflexivity|].
  split; [rewrite flush_store; apply Hcall|].
  assert (Hstop : heap (step (World a lg h) (Stop now))
                  = on_keystroke a "password***" now h).
  { cbn [IntegrityAssistant.step with_logger heap logger app].
    unfold stop. change (Str.truthy (buffer (set_running lg false))) with true.
    cbv iota. rewrite flush_store. apply Hcall. }
  split; [exact Hstop|]. split; [rewrite Hstop; exact Hlast|].
  split; [|split].
  - intros Hk. cbn [IntegrityAssistant.step with_logger heap logger app].
    rewrite release_eq, Hk, flush_store. apply Hcall.
  - apply press_appends_masked; reflexivity.
  - cbn [IntegrityAssistant.step with_logger heap logger app].
    destruct (press_cases lg k now h eq_refl) as [-> | ->]; [left; reflexivity|].
    right. rewrite flush_store. cbn [callback buffer set_buffer].
    rewrite press_token_eq. cbn [fst snd callback].
    change (has_marker (buffer lg) || sensitive_mode lg) with true.
    cbv iota. apply Hcall.
Qed.

(** C5 (amended). Special-key flush: in a running logger outside the
    sensitive mode (the mode is not set and the buffer holds no marker), the
    press of a key without a printable character adds the bracketed name of
    the key to the buffer and flushes at once: the newest entry of the
    keystroke list has the buffer followed by the bracketed name as its
    content, the buffer is empty and the time of the last flush is the
    current time. The release of Enter flushes whatever the buffer holds:
    [on_keystroke] is called with it when it is not empty, and the buffer
    is empty afterwards. *)
Theorem special_key_flush (now0 : clock) (evs : list event)
    (k : key) (now : clock) :
  let w := run (init now0) evs in
  (KeystrokeLogger.running (logger w) = true ->
   sensitive_mode (logger w) = false ->
   has_marker (buffer (logger w)) = false ->
   special k = true ->
   let w' := step w (KeyPress k now) in
   last (read (keystrokes (app w')) (heap w'))
   = Some (keystroke_entry (strftime now) (buffer (logger w) +:+ bracketed k))
   /\ buffer (logger w') = ""
   /\ last_timestamp (logger w') = time_time now)
  /\ (let w' := step w (KeyRelease (Key "enter") now) in
      heap w' = (if Str.truthy (buffer (logger w))
                 then on_keystroke (app w) (buffer (logger w)) now (heap w)
                 else heap w)
      /\ buffer (logger w') = "").
Proof.
  cbv zeta.
  pose proof (run_wf image_to_string _ evs (init_wf now0)) as Hwf.
  split.
  - intros Hr Hs Hm Hk.
    destruct (wf_callback _ Hwf Hr) as (cb & Hcb & Hcall).
    destruct (step_locs image_to_string (run (init now0) evs) (KeyPress k now))
      as [_ ->].
    cbn [IntegrityAssistant.step]. unfold with_logger.
    rewrite (press_special _ _ _ _ Hr Hs Hm Hk).
    cbn [heap logger]. rewrite flush_state, flush_store.
    cbn [callback buffer set_buffer last_timestamp]. rewrite Hcb.
    rewrite truthy_append_bracketed, Hcall.
    split; [|split; reflexivity].
    apply last_on_keystroke, Hwf.
  - cbn [IntegrityAssistant.step]. unfold with_logger.
    rewrite release_eq.
    change (is_key (Key "enter") "enter" || is_key (Key "enter") "tab")
      with true.
    cbn [heap logger]. rewrite flush_state, flush_store.
    split; [|reflexivity].
    destruct (Str.truthy (buffer (logger (run (init now0) evs)))) eqn:Hb.
    + destruct (KeystrokeLogger.running (logger (run (init now0) evs))) eqn:Hr.
      * destruct (wf_callback _ Hwf Hr) as (cb & -> & Hcall). apply Hcall.
      * destruct Hwf as (_ & _ & _ & _ & Hidle & _).
        rewrite (Hidle Hr) in Hb. discriminate.
    + destruct (callback (logger (run (init now0) evs))); reflexivity.
Qed.

(** C1 (amended). The data block refers to the two lists themselves: when
    it is assembled its two context fields read as the contents of the
    screen list and of the keystroke list, assembling it changes nothing,
    and after any later sequence of events they read as the contents the
    two lists have then. *)
Theorem snapshot_follows_buffers (w : world) (query_text : string)
    (user_id : option string) (now : clock) (evs : list event) :
  let d := make_data_block (app w) query_text user_id now in
  let w' := run w evs in
  block_screen_texts d (heap w) = read (screen_texts (app w)) (heap w)
  /\ block_recent_keystrokes d (heap w) = read (keystrokes (app w)) (heap w)
  /\ block_screen_texts d (heap w') = read (screen_texts (app w')) (heap w')
  /\ block_recent_keystrokes d (heap w')
     = read (keystrokes (app w')) (heap w').
Proof.
  cbv zeta. destruct (run_locs image_to_string w evs) as [-> ->].
  repeat split; reflexivity.
Qed.

End Scenarios.

(** ** The properties at work on concrete runs *)

Section Runs.

Import Store KeystrokeLogger IntegrityAssistant.

Abbreviation step := (step text_ocr).
Abbreviation run := (run text_ocr).

(** C1 (as stated, refuted). A data block is assembled after one capture;
    one more capture and one press of Enter later, its two context fields
    read differently: the new screen entry and the new keystroke entry
    show through it. *)
Lemma snapshot_isolation_counterexample :
  let w := run started [Capture (Some "A") t0] in
  let d := make_data_block (app w) "what is on screen?" None t0 in
  let w' := run w [Capture (Some "B") t1; KeyPress (Key "enter") t1] in
  block_screen_texts d (heap w) = [screen_entry (strftime t0) "A"]
  /\ block_screen_texts d (heap w')
     = [screen_entry (strftime t0) "A"; screen_entry (strftime t1) "B"]
  /\ block_recent_keystrokes d (heap w) = []
  /\ block_recent_keystrokes d (heap w')
     = [keystroke_entry (strftime t1) "[enter]"]
  /\ block_screen_texts d (heap w') <> block_screen_texts d (heap w)
  /\ block_recent_keystrokes d (heap w') <> block_recent_keystrokes d (heap w).
Proof.
  cbv zeta. repeat split; try (vm_compute; reflexivity);
    vm_compute; discriminate.
Qed.

(** C2 (what the code does). After [password], Shift is pressed, Tab is
    pressed and released while Shift is still down, Shift is released, and
    [x] is typed: the sensitive mode is still set, the buffer holds the
    mask [*] and not [x], and the entry flushed by the release of Tab is
    [password**]. *)
Theorem shift_tab_leaves_mode_set :
  let w := run typed_password
             [KeyPress (Key "shift") t1; KeyPress (Key "tab") t1;
              KeyRelease (Key "tab") t1; KeyRelease (Key "shift") t1;
              KeyPress (char_key "x") t1] in
  sensitive_mode (logger w) = true
  /\ buffer (logger w) = "*"
  /\ read (keystrokes (app w)) (heap w)
     = [keystroke_entry (strftime t1) "password**"].
Proof. cbv zeta. repeat split; vm_compute; reflexivity. Qed.

(** C4 (as stated, refuted). With [password1] typed the sensitive mode is
    set; a flush, and the release of Enter that makes one, empty the buffer
    and leave the mode set. *)
Lemma flush_mode_counterexample :
  let w := run typed_password [KeyPress (char_key "1") t0] in
  let w' := step w (KeyRelease (Key "enter") t1) in
  sensitive_mode (logger w) = true
  /\ sensitive_mode (fst (_flush_buffer (logger w) t1 (heap w))) <> false
  /\ buffer (logger w') = ""
  /\ read (keystrokes (app w')) (heap w')
     = [keystroke_entry (strftime t1) "password*"]
  /\ sensitive_mode (logger w') <> false.
Proof.
  cbv zeta. repeat split; try (vm_compute; reflexivity);
    vm_compute; discriminate.
Qed.

(** C5 (as stated, refuted). With [password] in the buffer, the press of
    Enter adds the mask [*]: the buffer is not flushed, no entry is made,
    and the entry made later by the release of Enter holds no bracketed
    name. *)
Lemma special_key_counterexample :
  let w := step typed_password (KeyPress (Key "enter") t1) in
  let w' := step w (KeyRelease (Key "enter") t1) in
  buffer (logger w) = "password*"
  /\ read (keystrokes (app w)) (heap w) = []
  /\ last_timestamp (logger w) = time_time t0
  /\ read (keystrokes (app w')) (heap w')
     = [keystroke_entry (strftime t1) "password*"].
Proof. cbv zeta. repeat split; vm_compute; reflexivity. Qed.

(** C3 at work: [password] typed, then [1], the release of Enter and of Tab,
    then [2]. *)
Lemma redaction_latch_witness :
  KeystrokeLogger.running (logger typed_password) = true
  /\ has_marker (buffer (logger typed_password)) = true
  /\ (press_appends (logger typed_password) (char_key "1") t1
        (heap typed_password) "*"
      /\ let w' := run (step typed_password (KeyPress (char_key "1") t1))
                     [KeyRelease (Key "enter") t1; KeyRelease (Key "tab") t1] in
         sensitive_mode (logger w') = true
         /\ (KeystrokeLogger.running (logger w') = true ->
             press_appends (logger w') (char_key "2") t1 (heap w') "*")
         /\ (KeystrokeLogger.running (logger w') = false ->
             step w' (KeyPress (char_key "2") t1) = w')).
Proof.
  split; [reflexivity|]. split; [reflexivity|].
  apply (redaction_latch text_ocr typed_password (char_key "1") t1
           [KeyRelease (Key "enter") t1; KeyRelease (Key "tab") t1]
           (char_key "2") t1); reflexivity.
Defined.

(** C9 at work: the mode set by [password1], then Shift with Tab, a stop
    and a new start. *)
Lemma sensitive_mode_never_cleared_witness :
  sensitive_mode (logger (run typed_password [KeyPress (char_key "1") t0])) = true
  /\ ((forall self, _active_keys self = [])
      /\ sensitive_mode
           (logger (run (run typed_password [KeyPress (char_key "1") t0])
                      [KeyPress (Key "shift") t1; KeyRelease (Key "tab") t1;
                       Stop t1; Start; KeyPress (char_key "a") t1]))
         = true).
Proof.
  split; [reflexivity|].
  apply (sensitive_mode_never_cleared text_ocr
           (run typed_password [KeyPress (char_key "1") t0])
           [KeyPress (Key "shift") t1; KeyRelease (Key "tab") t1;
            Stop t1; Start; KeyPress (char_key "a") t1]).
  reflexivity.
Defined.

(** C6 (as stated, refuted). With [password***] in the buffer, the next
    flush brought by a key press does not emit [password***]: a key pressed
    two seconds later is masked and flushed with the rest, and so is Enter,
    pressed and then released. *)
Lemma password_scenario_counterexample :
  let w := run started (type_keys (password_keys ++ ["1"; "2"; "3"])
                          (repeat t1 11)) in
  let later := step w (KeyPress (char_key "4") t2) in
  let enter := run w [KeyPress (Key "enter") t1; KeyRelease (Key "enter") t1] in
  buffer (logger w) = "password***"
  /\ read (keystrokes (app w)) (heap w) = []
  /\ read (keystrokes (app later)) (heap later)
     = [keystroke_entry (strftime t2) "password****"]
  /\ read (keystrokes (app enter)) (heap enter)
     = [keystroke_entry (strftime t1) "password****"]
  /\ read (keystrokes (app later)) (heap later)
     <> [keystroke_entry (strftime t2) "password***"]
  /\ read (keystrokes (app enter)) (heap enter)
     <> [keystroke_entry (strftime t1) "password***"].
Proof.
  cbv zeta. repeat split; try (vm_compute; reflexivity);
    vm_compute; discriminate.
Qed.

(** C6 (amended) at work: the eleven keys typed half a second after the
    start, and then Enter. *)
Lemma password_scenario_witness :
  KeystrokeLogger.running (logger started) = true
  /\ sensitive_mode (logger started) = false
  /\ buffer (logger started) = ""
  /\ length (repeat t1 11) = 11%nat
  /\ Forall (fun c =>
               (1 <? time_time c - last_timestamp (logger started))%float = false)
            (repeat t1 11)
  /\ (let w' := run started (type_keys (password_keys ++ ["1"; "2"; "3"])
                               (repeat t1 11)) in
      buffer (logger w') = "password***"
      /\ heap w' = heap started
      /\ snd (_flush_buffer (logger w') t1 (heap w'))
         = on_keystroke (app started) "password***" t1 (heap started)
      /\ heap (step w' (Stop t1))
         = on_keystroke (app started) "password***" t1 (heap started)
      /\ last (read (keystrokes (app started)) (heap (step w' (Stop t1))))
         = Some (keystroke_entry (strftime t1) "password***")
      /\ (is_key (Key "enter") "enter" || is_key (Key "enter") "tab" = true ->
          heap (step w' (KeyRelease (Key "enter") t1))
          = on_keystroke (app started) "password***" t1 (heap started))
      /\ press_appends (logger w') (Key "enter") t1 (heap w') "*"
      /\ (heap (step w' (KeyPress (Key "enter") t1)) = heap started
          \/ heap (step w' (KeyPress (Key "enter") t1))
             = on_keystroke (app started) "password****" t1 (heap started))).
Proof.
  assert (Hall : Forall (fun c =>
                           (1 <? time_time c - last_timestamp (logger started))%float
                           = false) (repeat t1 11)).
  { repeat (apply List.Forall_cons; [reflexivity|]). apply List.Forall_nil. }
  split; [reflexivity|]. split; [reflexivity|]. split; [reflexivity|].
  split; [reflexivity|]. split; [exact Hall|].
  apply (password_scenario text_ocr t0 [Start] (repeat t1 11) t1 (Key "enter"));
    [reflexivity | reflexivity | reflexivity | reflexivity | exact Hall].
Defined.

(** C5 (amended) at work: [a] typed, then Enter pressed, or released. *)
Lemma special_key_flush_witness :
  let w := run started [KeyPress (char_key "a") t0] in
  KeystrokeLogger.running (logger w) = true
  /\ sensitive_mode (logger w) = false
  /\ has_marker (buffer (logger w)) = false
  /\ special (Key "enter") = true
  /\ (let w' := step w (KeyPress (Key "enter") t1) in
      last (read (keystrokes (app w')) (heap w'))
      = Some (keystroke_entry (strftime t1) "a[enter]")
      /\ buffer (logger w') = ""
      /\ last_timestamp (logger w') = time_time t1)
  /\ (let w' := step w (KeyRelease (Key "enter") t1) in
      heap w' = on_keystroke (app w) "a" t1 (heap w)
      /\ buffer (logger w') = "").
Proof.
  cbv zeta.
  split; [reflexivity|]. split; [reflexivity|]. split; [reflexivity|].
  split; [reflexivity|].
  destruct (special_key_flush text_ocr t0 [Start; KeyPress (char_key "a") t0]
              (Key "enter") t1) as [Hpress Hrelease].
  split; [|exact Hrelease].
  apply Hpress; reflexivity.
Defined.

Example bracketed_enter : bracketed (Key "enter") = "[enter]".
Proof. reflexivity. Qed.

Example special_key_entry :
  read 1%nat (heap (run started [KeyPress (char_key "a") t0;
                                 KeyPress (Key "enter") t1]))
  = [keystroke_entry (strftime t1) "a[enter]"].
Proof. vm_compute. reflexivity. Qed.

(** The capture loop over the texts [A], nothing, [B]. *)
Example capture_three_cycles :
  read 0%nat (heap (run started [Capture (Some "A") t0; Capture (Some "") t0;
                                 Capture (Some "B") t1]))
  = [screen_entry (strftime t0) "A"; screen_entry (strftime t1) "B"].
Proof. vm_compute. reflexivity. Qed.

Example normalize_text :
  Normalize.normalize
    (String "009" ("  two" +:+ String "010" (String "013" "  words "))) = "two words".
Proof. reflexivity. Qed.

Example extract_text_reads :
  ScreenCapture.extract_text text_ocr (Some "  Sign  in ")
  = ("Sign in", [ScreenCapture.OcrCall "  Sign  in "]).
Proof. reflexivity. Qed.

End Runs.

(* ================================================================== *)
(** * Further properties of the sources                                *)
(* ================================================================== *)

(** ** Strings, continued *)

Section StringLemmas.

Import Str.

Lemma append_cons (c : ascii) (s t : string) :
  String c s +:+ t = String c (s +:+ t).
Proof. reflexivity. Qed.

Lemma append_empty_l (s : string) : "" +:+ s = s.
Proof. reflexivity. Qed.

Lemma append_empty_r (s : string) : s +:+ "" = s.
Proof.
  induction s as [|c s IH]; [reflexivity|]. rewrite append_cons, IH. reflexivity.
Qed.

Lemma append_assoc (a b c : string) : (a +:+ b) +:+ c = a +:+ (b +:+ c).
Proof.
  induction a as [|x a IH]; [reflexivity|]. rewrite !append_cons, IH. reflexivity.
Qed.

Lemma length_append (a b : string) :
  String.length (a +:+ b) = (String.length a + String.length b)%nat.
Proof.
  induction a as [|x a IH]; [reflexivity|]. rewrite append_cons. simpl.
  rewrite IH. reflexivity.
Qed.

Lemma lower_append (a b : string) : lower (a +:+ b) = lower a +:+ lower b.
Proof.
  induction a as [|x a IH]; [reflexivity|]. rewrite append_cons. simpl.
  rewrite IH. reflexivity.
Qed.

Lemma prefix_append (p s : string) : String.prefix p (p +:+ s) = true.
Proof.
  induction p as [|x p IH]; [destruct s; reflexivity|].
  rewrite append_cons. simpl.
  destruct (ascii_dec x x) as [_|Hne]; [exact IH|congruence].
Qed.

Lemma prefix_split (p s : string) :
  String.prefix p s = true -> exists post, s = p +:+ post.
Proof.
  revert s. induction p as [|x p IH]; intros s Hp.
  - exists s. reflexivity.
  - destruct s as [|y s]; simpl in Hp; [discriminate|].
    destruct (ascii_dec x y) as [->|_]; [|discriminate].
    destruct (IH s Hp) as [post ->]. exists post. reflexivity.
Qed.

Lemma contains_unfold (sub s : string) :
  contains sub s
  = String.prefix sub s
    || match s with EmptyString => false | String _ s' => contains sub s' end.
Proof. destruct s; reflexivity. Qed.

(** [sub in s] holds exactly when [s] is [sub] between two strings. *)
Lemma contains_spec (sub s : string) :
  contains sub s = true <-> exists pre post, s = pre +:+ sub +:+ post.
Proof.
  split.
  - induction s as [|c s IH]; rewrite contains_unfold; intros H;
      apply orb_true_iff in H; destruct H as [H|H]; try discriminate.
    + destruct (prefix_split _ _ H) as [post ->]. exists "", post. reflexivity.
    + destruct (prefix_split _ _ H) as [post ->]. exists "", post. reflexivity.
    + destruct (IH H) as (pre & post & ->). exists (String c pre), post.
      reflexivity.
  - intros (pre & post & ->). induction pre as [|c pre IH].
    + rewrite append_empty_l, contains_unfold, prefix_append. reflexivity.
    + rewrite append_cons, contains_unfold, IH. apply orb_true_r.
Qed.

Lemma split_run_words (s : string) :
  spaceless (fst (split_run s)) = true /\ Forall word (snd (split_run s)).
Proof.
  induction s as [|c s [IH1 IH2]]; simpl; [split; [reflexivity|constructor]|].
  destruct (split_run s) as [w ws]. simpl in *.
  destruct (isspace c) eqn:Hc; simpl.
  - split; [reflexivity|]. unfold cons_run.
    destruct (truthy w) eqn:Hw; [|exact IH2].
    constructor; [split; assumption|exact IH2].
  - rewrite Hc. simpl. split; assumption.
Qed.

Lemma split_all_words (s : string) : Forall word (split s).
Proof.
  unfold split. destruct (split_run_words s) as [H1 H2].
  destruct (split_run s) as [w ws]. simpl in *. unfold cons_run.
  destruct (truthy w) eqn:Hw; [|exact H2].
  constructor; [split; assumption|exact H2].
Qed.

Lemma split_run_cons (c : ascii) (s : string) :
  split_run (String c s)
  = let '(w, ws) := split_run s in
    if isspace c then (EmptyString, cons_run w ws) else (String c w, ws).
Proof. reflexivity. Qed.

Lemma split_run_append (w s : string) :
  spaceless w = true ->
  split_run (w +:+ s) = (w +:+ fst (split_run s), snd (split_run s)).
Proof.
  induction w as [|c w IH]; intros Hw.
  - rewrite !append_empty_l. destruct (split_run s); reflexivity.
  - simpl in Hw. apply andb_true_iff in Hw. destruct Hw as [Hc Hw].
    rewrite append_cons. simpl. rewrite (IH Hw).
    apply negb_true_iff in Hc. rewrite Hc. reflexivity.
Qed.

Lemma split_run_join (w : string) (ws : list string) :
  word w -> Forall word ws ->
  split_run (join " " (w :: ws)) = (w, ws).
Proof.
  revert w. induction ws as [|v vs IH]; intros w [Hw1 Hw2] Hall.
  - simpl. rewrite <- (append_empty_r w) at 1.
    rewrite split_run_append by exact Hw2. simpl. rewrite append_empty_r.
    reflexivity.
  - apply Forall_cons in Hall. destruct Hall as [Hv Hvs].
    change (join " " (w :: v :: vs)) with (w +:+ String " " (join " " (v :: vs))).
    rewrite split_run_append by exact Hw2.
    rewrite split_run_cons, (IH v Hv Hvs).
    change (isspace " ") with true. cbv iota. cbn [fst snd].
    unfold cons_run. destruct Hv as [-> _]. rewrite append_empty_r. reflexivity.
Qed.

(** Splitting the joined words gives the words back. *)
Lemma split_join (ws : list string) :
  Forall word ws -> split (join " " ws) = ws.
Proof.
  intros Hall. destruct ws as [|w ws]; [reflexivity|].
  apply Forall_cons in Hall. destruct Hall as [Hw Hws].
  unfold split. rewrite (split_run_join w ws Hw Hws).
  unfold cons_run. destruct Hw as [-> _]. reflexivity.
Qed.

Lemma split_blank (s : string) : split s = [] <-> blank s = true.
Proof.
  unfold split. induction s as [|c s IH]; simpl; [tauto|].
  destruct (split_run s) as [w ws]. destruct (isspace c) eqn:Hc; simpl.
  - exact IH.
  - split; discriminate.
Qed.

End StringLemmas.

(** ** The text extractor, continued *)

Section ExtractedText.

Import Store ScreenCapture IntegrityAssistant.
Context {Image : Type} (image_to_string : Image -> string + string).

Lemma join_split_blank (s : string) :
  Str.join " " (Str.split s) = "" <-> blank s = true.
Proof.
  rewrite <- split_blank. pose proof (join_split_truthy s) as H. split.
  - intros E. rewrite E in H. destruct (Str.split s); [reflexivity|discriminate].
  - intros ->. reflexivity.
Qed.

(** X1. The text extracted from an image is made of words (non-empty, free
    of whitespace) with one space between two neighbours, hence without
    whitespace at its ends, and extracting is idempotent: normalised once
    more, the extracted text is unchanged. *)
Theorem extract_text_words (image : option Image) :
  let r := fst (extract_text image_to_string image) in
  (exists ws, Forall word ws /\ r = Str.join " " ws)
  /\ Str.join " " (Str.split r) = r.
Proof.
  cbv zeta.
  assert (Hempty : (exists ws, Forall word ws /\ "" = Str.join " " ws)
                   /\ Str.join " " (Str.split "") = "").
  { split; [|reflexivity]. exists []. split; [constructor|reflexivity]. }
  destruct image as [img|]; simpl; [|exact Hempty].
  destruct (image_to_string img) as [text|e]; simpl; [|exact Hempty].
  split.
  - exists (Str.split text). split; [apply split_all_words|reflexivity].
  - rewrite split_join by apply split_all_words. reflexivity.
Qed.

(** X2. One turn of the capture loop stores an entry exactly when a
    screenshot was taken, the OCR engine read it without failing and the
    text read is not blank; the text stored is the text read with its runs
    of whitespace collapsed and its ends trimmed. In every other case the
    store is left as it is. *)
Theorem capture_cycle_cases (self : IntegrityAssistant.t)
    (grab : option Image) (now : clock) (h : gmap loc pylist) :
  capture_cycle image_to_string self grab now h
  = match grab with
    | Some img =>
        match image_to_string img with
        | inl text =>
            if blank text then h
            else bounded_push 30 (screen_texts self)
                   (screen_entry (strftime now) (Normalize.normalize text)) h
        | inr _ => h
        end
    | None => h
    end.
Proof.
  rewrite capture_cycle_eq. cbv zeta. unfold capture.
  destruct grab as [img|]; [|reflexivity]. simpl.
  destruct (image_to_string img) as [text|e]; [|reflexivity]. simpl.
  rewrite <- join_split_normalize.
  destruct (blank text) eqn:Hb.
  - apply join_split_blank in Hb. rewrite Hb. reflexivity.
  - destruct (Str.truthy (Str.join " " (Str.split text))) eqn:Ht; [reflexivity|].
    apply truthy_false, join_split_blank in Ht. congruence.
Qed.

End ExtractedText.

(** ** The sensitivity check, continued *)

Section MarkerDetection.

Import KeystrokeLogger.

Lemma has_marker_spec (s : string) :
  has_marker s = true
  <-> exists p pre post,
        In p sensitive_prefixes /\ Str.lower s = pre +:+ p +:+ post.
Proof.
  unfold has_marker. rewrite existsb_exists. split.
  - intros (p & Hin & Hc). apply contains_spec in Hc.
    destruct Hc as (pre & post & E). eauto.
  - intros (p & pre & post & Hin & E). exists p. split; [exact Hin|].
    apply contains_spec. eauto.
Qed.

(** X3. The sensitivity check sets the mode exactly when the lowered buffer
    holds one of the ten markers somewhere, at any position; it never
    clears a mode already set. Detection ignores case: a buffer that holds
    any spelling of a marker, between any two strings, sets the mode. *)
Theorem check_sensitive_context_spec (self : KeystrokeLogger.t) :
  (sensitive_mode (_check_sensitive_context self) = true
   <-> sensitive_mode self = true
       \/ exists p pre post,
            In p sensitive_prefixes
            /\ Str.lower (buffer self) = pre +:+ p +:+ post)
  /\ (forall m pre post,
        In (Str.lower m) sensitive_prefixes ->
        buffer self = pre +:+ m +:+ post ->
        sensitive_mode (_check_sensitive_context self) = true).
Proof.
  rewrite check_sensitive_mode. split.
  - rewrite orb_true_iff, has_marker_spec. tauto.
  - intros m pre post Hin Hb. apply orb_true_iff. left.
    apply has_marker_spec. exists (Str.lower m), (Str.lower pre), (Str.lower post).
    split; [exact Hin|]. rewrite Hb, !lower_append. reflexivity.
Qed.

End MarkerDetection.

(** ** The keystroke list, entry by entry *)

Section KeystrokeHistory.

Import Store KeystrokeLogger IntegrityAssistant.
Context {Image : Type} (image_to_string : Image -> string + string).

Abbreviation step := (step image_to_string).
Abbreviation run := (run image_to_string).

Lemma contents_app (xs ys : list dict) :
  contents (xs ++ ys) = contents xs +:+ contents ys.
Proof.
  induction xs as [|d xs IH]; [reflexivity|]. simpl.
  rewrite IH, append_assoc. reflexivity.
Qed.

(** A flush in a world the system goes through: the buffer, when it is not
    empty, becomes one more entry of the keystroke list, and no other list
    changes. [self] is the logger as the handler holds it when it flushes. *)
Lemma flush_history (w : world) (self : KeystrokeLogger.t) (now : clock) :
  wf w ->
  callback self = callback (logger w) ->
  (callback (logger w) = None -> buffer self = "") ->
  let h' := snd (_flush_buffer self now (heap w)) in
  history (keystrokes (app w)) h'
  = history (keystrokes (app w)) (heap w)
    ++ (if Str.truthy (buffer self)
        then [keystroke_entry (strftime now) (buffer self)] else [])
  /\ (forall l, l <> keystrokes (app w) -> h' !! l = heap w !! l).
Proof.
  intros Hwf Hcb Hnone. cbv zeta. rewrite flush_store, Hcb.
  destruct Hwf as (_ & _ & Hks & _ & _ & Hcall).
  destruct (callback (logger w)) as [cb|].
  - destruct (Str.truthy (buffer self)).
    + rewrite Hcall, on_keystroke_eq. split.
      * apply history_bounded_push, Hks.
      * intros l Hl. apply lookup_bounded_push_ne. auto.
    + rewrite app_nil_r. auto.
  - rewrite (Hnone eq_refl). simpl. rewrite app_nil_r. auto.
Qed.

(** What one event does to the keystroke list: it appends entries, whose
    contents followed by the new buffer are the old buffer followed by what
    the event added; each new entry holds the old buffer, alone or followed
    by what the event added. *)
Lemma step_keystrokes (w : world) (e : event) :
  wf w ->
  exists new,
    history (keystrokes (app w)) (heap (step w e))
    = history (keystrokes (app w)) (heap w) ++ new
    /\ contents new +:+ buffer (logger (step w e))
       = buffer (logger w) +:+ press_adds w e
    /\ Forall (fun d => exists ts s,
                   d = keystroke_entry ts s
                   /\ (s = buffer (logger w)
                       \/ s = buffer (logger w) +:+ press_adds w e)) new.
Proof.
  intros Hwf.
  assert (Hnone : callback (logger w) = None -> buffer (logger w) = "").
  { destruct Hwf as (_ & _ & _ & _ & Hidle & Hcall). intros E.
    rewrite E in Hcall. auto. }
  assert (Hflush : forall self now,
    callback self = callback (logger w) ->
    (callback (logger w) = None -> buffer self = "") ->
    exists new,
      history (keystrokes (app w)) (snd (_flush_buffer self now (heap w)))
      = history (keystrokes (app w)) (heap w) ++ new
      /\ contents new +:+ "" = buffer self
      /\ Forall (fun d => exists ts s, d = keystroke_entry ts s
                                       /\ s = buffer self) new).
  { intros self now Hcb Hn.
    destruct (flush_history w self now Hwf Hcb Hn) as [Hh _].
    eexists. split; [exact Hh|].
    destruct (Str.truthy (buffer self)) eqn:Ht.
    - split; [simpl; unfold entry_content; simpl; rewrite !append_empty_r;
              reflexivity|].
      constructor; [eauto|constructor].
    - apply truthy_false in Ht. rewrite Ht. split; [reflexivity|constructor]. }
  destruct e as [|now|grab now|k now|k now]; simpl.
  - exists []. rewrite app_nil_r, append_empty_r.
    destruct (IntegrityAssistant.running (app w)); simpl;
      [|unfold KeystrokeLogger.start;
        destruct (KeystrokeLogger.running (logger w))];
      repeat split; constructor.
  - unfold stop. simpl. rewrite append_empty_r.
    destruct (Str.truthy (buffer (logger w))) eqn:Ht.
    + destruct (Hflush (set_running (logger w) false) now eq_refl Hnone)
        as (new & Hh & Hc & Hall).
      exists new. split; [exact Hh|]. split; [exact Hc|].
      eapply Forall_impl; [exact Hall|]. intros d (ts & s & -> & ->). eauto.
    + apply truthy_false in Ht. exists []. simpl. rewrite app_nil_r, Ht.
      repeat split; constructor.
  - exists []. rewrite app_nil_r, append_empty_r.
    destruct Hwf as (Hne & Hst & _).
    destruct (IntegrityAssistant.running (app w)); simpl;
      [|repeat split; constructor].
    split; [|split; [reflexivity|constructor]].
    rewrite capture_cycle_eq. cbv zeta. destruct (Str.truthy _); [|reflexivity].
    apply read_frame, lookup_bounded_push_ne, Hne.
  - destruct (KeystrokeLogger.running (logger w)) eqn:Hr.
    + destruct (press_cases (logger w) k now (heap w) Hr) as [-> | ->].
      * exists []. simpl. rewrite app_nil_r. repeat split; constructor.
      * destruct (check_sensitive_frame (logger w)) as (_ & Hc & _).
        match goal with
        | |- context [_flush_buffer ?s _ _] =>
            destruct (Hflush s now Hc) as (new & Hh & Hcn & Hall)
        end.
        { intros E. destruct Hwf as (_ & _ & _ & _ & _ & Hcall).
          rewrite E in Hcall. congruence. }
        exists new. split; [exact Hh|]. split; [exact Hcn|].
        eapply Forall_impl; [exact Hall|]. intros d (ts & s & -> & ->). eauto.
    + unfold _on_key_press. rewrite Hr. simpl. exists [].
      rewrite app_nil_r, append_empty_r. repeat split; constructor.
  - rewrite release_eq, append_empty_r.
    destruct (is_key k "enter" || is_key k "tab").
    + destruct (Hflush (logger w) now eq_refl Hnone) as (new & Hh & Hc & Hall).
      exists new. split; [exact Hh|]. split; [exact Hc|].
      eapply Forall_impl; [exact Hall|]. intros d (ts & s & -> & ->). eauto.
    + exists []. simpl. rewrite app_nil_r. repeat split; constructor.
Qed.

Lemma step_recorded (w : world) (e : event) :
  wf w -> recorded (step w e) = recorded w +:+ press_adds w e.
Proof.
  intros Hwf. destruct (step_keystrokes w e Hwf) as (new & Hh & Hc & _).
  unfold recorded. destruct (step_locs image_to_string w e) as [_ ->].
  rewrite Hh, contents_app, !append_assoc, Hc. reflexivity.
Qed.

Lemma run_recorded (w : world) (evs : list event) :
  wf w -> recorded (run w evs) = recorded w +:+ typed image_to_string w evs.
Proof.
  revert w. induction evs as [|e evs IH]; intros w Hwf.
  - simpl. rewrite append_empty_r. reflexivity.
  - rewrite run_cons, IH by apply step_wf, Hwf.
    rewrite step_recorded by exact Hwf. simpl. apply append_assoc.
Qed.

(** X4. Nothing typed is lost, repeated or moved: after every sequence of
    events, the contents of all the entries ever appended to the keystroke
    list, in the order of their insertion, followed by the buffer, are
    exactly the strings that the handled key presses added, in the order of
    the presses. Flushes, stops and restarts only cut this text into
    entries. *)
Theorem keystrokes_faithful (now : clock) (evs : list event) :
  recorded (run (init now) evs) = typed image_to_string (init now) evs.
Proof. rewrite run_recorded by apply init_wf. reflexivity. Qed.

End KeystrokeHistory.

(** ** The buffer and the mode along a run *)

Section BufferAlongRuns.

Import Store KeystrokeLogger IntegrityAssistant.
Context {Image : Type} (image_to_string : Image -> string + string).

Abbreviation step := (step image_to_string).
Abbreviation run := (run image_to_string).

Lemma press_buffer_bound self k now (h : gmap loc pylist) :
  (String.length (buffer self) <= 20)%nat ->
  (String.length (buffer (fst (_on_key_press self k now h))) <= 20)%nat.
Proof.
  intros Hb. unfold _on_key_press.
  destruct (KeystrokeLogger.running self); simpl; [|exact Hb].
  match goal with |- context [if ?c then _ else _] => destruct c eqn:Hc end.
  - simpl. lia.
  - apply orb_false_iff in Hc. destruct Hc as [_ Hc].
    apply Z.ltb_ge in Hc. simpl in *. lia.
Qed.

Lemma step_buffer_bound (w : world) (e : event) :
  (String.length (buffer (logger w)) <= 20)%nat ->
  (String.length (buffer (logger (step w e))) <= 20)%nat.
Proof.
  intros Hb. destruct e as [|now|grab now|k now|k now]; simpl.
  - destruct (IntegrityAssistant.running (app w)); simpl; [exact Hb|].
    unfold KeystrokeLogger.start.
    destruct (KeystrokeLogger.running (logger w)); exact Hb.
  - rewrite stop_buffer. simpl. lia.
  - destruct (IntegrityAssistant.running (app w)); exact Hb.
  - apply press_buffer_bound, Hb.
  - rewrite release_eq. destruct (is_key k "enter" || is_key k "tab");
      simpl; [lia|exact Hb].
Qed.

(** X5. The buffer never holds more than twenty characters once an event
    has been handled: a key press that would leave more flushes at once,
    whatever the key and however long its name. *)
Theorem buffer_at_most_twenty (now : clock) (evs : list event) :
  (String.length (buffer (logger (run (init now) evs))) <= 20)%nat.
Proof.
  assert (H : forall w,
             (String.length (buffer (logger w)) <= 20)%nat ->
             (String.length (buffer (logger (run w evs))) <= 20)%nat).
  { induction evs as [|e evs IH]; intros w Hb; [exact Hb|].
    rewrite run_cons. apply IH, step_buffer_bound, Hb. }
  apply H. simpl. lia.
Qed.

Lemma all_mask_append (a b : string) :
  all_mask (a +:+ b) = all_mask a && all_mask b.
Proof.
  induction a as [|c a IH]; [reflexivity|]. rewrite append_cons. simpl.
  rewrite IH. apply andb_assoc.
Qed.

Lemma press_adds_masked (w : world) (e : event (Image := Image)) :
  sensitive_mode (logger w) = true -> all_mask (press_adds w e) = true.
Proof.
  intros Hs. destruct e as [| | |k now|]; try reflexivity. unfold press_adds.
  destruct (KeystrokeLogger.running (logger w)); [|reflexivity].
  rewrite press_token_masked; [reflexivity|]. rewrite Hs. apply orb_true_r.
Qed.

Lemma run_masked (evs : list event) (w : world) :
  wf w ->
  sensitive_mode (logger w) = true ->
  all_mask (buffer (logger w)) = true ->
  exists new,
    history (keystrokes (app w)) (heap (run w evs))
    = history (keystrokes (app w)) (heap w) ++ new
    /\ Forall masked_entry new
    /\ all_mask (buffer (logger (run w evs))) = true.
Proof.
  revert w. induction evs as [|e evs IH]; intros w Hwf Hs Hb.
  - exists []. rewrite app_nil_r. repeat split; [constructor|exact Hb].
  - rewrite run_cons.
    destruct (step_keystrokes image_to_string w e Hwf) as (new & Hh & Hc & Hall).
    pose proof (press_adds_masked w e Hs) as Ha.
    assert (Hm : all_mask (contents new) && all_mask (buffer (logger (step w e)))
                 = true).
    { rewrite <- all_mask_append, Hc, all_mask_append, Hb, Ha. reflexivity. }
    apply andb_true_iff in Hm. destruct Hm as [_ Hb'].
    destruct (IH (step w e) (step_wf image_to_string w e Hwf)
                 (step_sensitive image_to_string w e Hs) Hb')
      as (new' & Hh' & Hall' & Hb'').
    destruct (step_locs image_to_string w e) as [_ Hks]. rewrite Hks in Hh'.
    exists (new ++ new'). rewrite Hh', Hh, app_assoc.
    split; [reflexivity|]. split; [|exact Hb''].
    apply Forall_app. split; [|exact Hall'].
    eapply Forall_impl; [exact Hall|].
    intros d (ts & s & -> & Hs'). exists s. split; [reflexivity|].
    destruct Hs' as [-> | ->]; [exact Hb|].
    rewrite all_mask_append, Hb, Ha. reflexivity.
Qed.

(** X6. Once the sensitive mode is set and the buffer holds nothing but
    mask characters (after a flush, say), every entry appended to the
    keystroke list from then on is made of mask characters only, whatever
    is typed, released, stopped or started. *)
Theorem masked_after_latch (now0 : clock) (evs0 evs : list event) :
  let w := run (init now0) evs0 in
  sensitive_mode (logger w) = true ->
  all_mask (buffer (logger w)) = true ->
  exists new,
    history (keystrokes (app w)) (heap (run w evs))
    = history (keystrokes (app w)) (heap w) ++ new
    /\ Forall masked_entry new.
Proof.
  cbv zeta. intros Hs Hb.
  destruct (run_masked evs _ (run_wf image_to_string _ evs0 (init_wf now0)) Hs Hb)
    as (new & Hh & Hall & _).
  eauto.
Qed.

Lemma step_idle (w : world) (e : event) :
  wf w -> IntegrityAssistant.running (app w) = false -> is_start e = false ->
  heap (step w e) = heap w
  /\ IntegrityAssistant.running (app (step w e)) = false
  /\ buffer (logger (step w e)) = "".
Proof.
  intros Hwf Hr He.
  pose proof Hwf as (_ & _ & _ & Hrun & Hidle & _).
  rewrite Hr in Hrun. pose proof (Hidle Hrun) as Hb.
  destruct e as [|now|grab now|k now|k now]; try discriminate; simpl.
  - unfold stop. simpl. rewrite Hb. simpl. auto.
  - rewrite Hr. auto.
  - unfold _on_key_press. rewrite Hrun. simpl. auto.
  - rewrite release_eq. destruct (is_key k "enter" || is_key k "tab");
      simpl; [|auto].
    rewrite Hb. destruct (callback (logger w)); auto.
Qed.

(** X7. While the assistant is not running (before the first start, and
    after a stop until the next start) no event changes the store: key
    presses are ignored, key releases and stops find an empty buffer, and
    the capture loop does not turn. *)
Theorem idle_records_nothing (now0 : clock) (evs0 evs : list event) :
  let w := run (init now0) evs0 in
  IntegrityAssistant.running (app w) = false ->
  forallb (fun e => negb (is_start e)) evs = true ->
  heap (run w evs) = heap w.
Proof.
  cbv zeta. intros Hr Hevs.
  pose proof (run_wf image_to_string _ evs0 (init_wf now0)) as Hwf.
  revert Hr Hwf Hevs. generalize (run (init now0) evs0).
  induction evs as [|e evs IH]; intros w Hr Hwf Hevs; [reflexivity|].
  simpl in Hevs. apply andb_true_iff in Hevs. destruct Hevs as [He Hevs].
  apply negb_true_iff in He.
  destruct (step_idle w e Hwf Hr He) as (Hh & Hr' & _).
  rewrite run_cons, IH; auto using step_wf.
Qed.

(** X8. A stop leaves nothing behind: the buffer is empty and both running
    flags are cleared afterwards, and the text that was pending, when there
    was some, is the one entry appended to the keystroke list, with the
    time of the stop; the screen list is not touched. *)
Theorem stop_flushes_pending (now0 : clock) (evs : list event) (now : clock) :
  let w := run (init now0) evs in
  let w' := step w (Stop now) in
  buffer (logger w') = ""
  /\ KeystrokeLogger.running (logger w') = false
  /\ IntegrityAssistant.running (app w') = false
  /\ history (keystrokes (app w)) (heap w')
     = history (keystrokes (app w)) (heap w)
       ++ (if Str.truthy (buffer (logger w))
           then [keystroke_entry (strftime now) (buffer (logger w))] else [])
  /\ read (screen_texts (app w)) (heap w') = read (screen_texts (app w)) (heap w).
Proof.
  cbv zeta.
  pose proof (run_wf image_to_string _ evs (init_wf now0)) as Hwf.
  set (w := run (init now0) evs) in *.
  assert (Hnone : callback (logger w) = None -> buffer (logger w) = "").
  { destruct Hwf as (_ & _ & _ & _ & Hidle & Hcall). intros E.
    rewrite E in Hcall. auto. }
  cbn [IntegrityAssistant.step with_logger logger app heap
       IntegrityAssistant.running].
  rewrite stop_buffer, stop_running.
  split; [reflexivity|]. split; [reflexivity|]. split; [reflexivity|].
  destruct (flush_history w (set_running (logger w) false) now
              Hwf eq_refl Hnone) as [Hh Hframe].
  change (buffer (set_running (logger w) false)) with (buffer (logger w)) in Hh.
  unfold stop.
  change (buffer (set_running (logger w) false)) with (buffer (logger w)).
  destruct (Str.truthy (buffer (logger w))) eqn:Ht.
  - split; [exact Hh|].
    apply read_frame, Hframe. destruct Hwf as (Hne & _). exact Hne.
  - cbn [snd]. rewrite app_nil_r. auto.
Qed.

(** X9. The two lists are fed apart: a turn of the capture loop changes
    neither the keystroke list nor the logger, and no other event changes
    the screen list. *)
Theorem lists_fed_apart (now0 : clock) (evs : list event) (e : event) :
  let w := run (init now0) evs in
  match e with
  | Capture _ _ =>
      read (keystrokes (app w)) (heap (step w e))
      = read (keystrokes (app w)) (heap w)
      /\ logger (step w e) = logger w
  | _ =>
      read (screen_texts (app w)) (heap (step w e))
      = read (screen_texts (app w)) (heap w)
  end.
Proof.
  cbv zeta.
  pose proof (run_wf image_to_string _ evs (init_wf now0)) as Hwf.
  set (w := run (init now0) evs) in *.
  pose proof Hwf as (Hne & _).
  assert (Hemit : forall now h',
             emits (logger w) now (heap w) h' ->
             read (screen_texts (app w)) h' = read (screen_texts (app w)) (heap w)).
  { intros now h' [-> | (cb & s & Hcb & _ & ->)]; [reflexivity|].
    destruct Hwf as (_ & _ & _ & _ & _ & Hcall). rewrite Hcb in Hcall.
    rewrite Hcall, on_keystroke_eq.
    apply read_frame, lookup_bounded_push_ne. auto. }
  destruct e as [|now|grab now|k now|k now]; simpl.
  - destruct (IntegrityAssistant.running (app w)); reflexivity.
  - apply (Hemit now), stop_emits.
  - destruct (IntegrityAssistant.running (app w)); simpl; [|auto].
    split; [|reflexivity]. rewrite capture_cycle_eq. cbv zeta.
    destruct (Str.truthy _); [|reflexivity].
    apply read_frame, lookup_bounded_push_ne, Hne.
  - apply (Hemit now), press_emits.
  - apply (Hemit now), release_emits.
Qed.

End BufferAlongRuns.

(** ** Tokens and sessions *)

Section Tokens.

Import SupabaseAuth.

Lemma new_session_lookups access refresh uid expires :
  new_session access refresh uid expires !! "access_token" = Some (PStr access)
  /\ new_session access refresh uid expires !! "refresh_token" = Some (PStr refresh)
  /\ new_session access refresh uid expires !! "user_id" = Some (id_val uid)
  /\ new_session access refresh uid expires !! "expires_at" = Some (PNum expires).
Proof.
  unfold new_session. repeat split;
    repeat (rewrite lookup_insert_ne by discriminate);
    apply lookup_insert_eq.
Qed.



Lemma valid_new_session c access refresh uid expires uid' now0 :
  now0 <= expires ->
  valid_session (Make c (Some (new_session access refresh uid expires)) uid')
    now0 (PStr access).
Proof.
  intros Hle. destruct (new_session_lookups access refresh uid expires)
    as (Ha & _ & _ & He).
  exists (new_session access refresh uid expires), expires. auto.
Qed.

(** A successful refresh installs a session built from the reply. *)
Lemma refresh_token_true self e self1 fx :
  refresh_token self e = (self1, true, fx) ->
  exists access refresh,
    self1 = Make (client self)
              (Some (new_session access refresh (user_id self) (now e + 3600000)))
              (user_id self).
Proof.
  unfold refresh_token. destruct (session self) as [d|]; [|discriminate].
  destruct (negb (client self) || no_session self); [discriminate|].
  destruct (d !! "refresh_token"); [|discriminate].
  destruct (refresh_reply e) as [[access refresh]|err]; [|discriminate].
  intros E. injection E as <- _. eauto.
Qed.

(** A failed refresh leaves the object as it was. *)
Lemma refresh_token_false self e self1 fx :
  refresh_token self e = (self1, false, fx) -> self1 = self.
Proof.
  unfold refresh_token. destruct (session self) as [d|]; [|congruence].
  destruct (negb (client self) || no_session self); [congruence|].
  destruct (d !! "refresh_token"); [|congruence].
  destruct (refresh_reply e) as [[access refresh]|err]; [discriminate|congruence].
Qed.

Lemma get_auth_token_valid (self : SupabaseAuth.t) (e : env) (token : pyval) :
  snd (fst (get_auth_token self e)) = Ok token ->
  token <> PNone ->
  valid_session (fst (fst (get_auth_token self e))) (now e) token.
Proof.
  unfold get_auth_token. destruct (no_session self) eqn:Hno; simpl.
  { intros E. injection E as <-. congruence. }
  unfold _is_token_expired. rewrite Hno. unfold no_session in Hno.
  destruct (session self) as [d|] eqn:Hd; [|discriminate Hno].
  assert (Hrefresh :
    (let '(self1, refreshed, fx) := refresh_token self e in
     if refreshed then (self1, Ok (access_token self1), fx)
     else (self1, Ok PNone, fx)).1.2 = Ok token ->
    token <> PNone ->
    valid_session
      (let '(self1, refreshed, fx) := refresh_token self e in
       if refreshed then (self1, Ok (access_token self1), fx)
       else (self1, Ok PNone, fx)).1.1 (now e) token).
  { destruct (refresh_token self e) as [[self1 [|]] fx] eqn:Hr; simpl.
    - destruct (refresh_token_true _ _ _ _ Hr) as (access & refresh & ->).
      unfold access_token. simpl.
      destruct (new_session_lookups access refresh (user_id self)
                  (now e + 3600000)) as (-> & _).
      simpl. intros E _. injection E as <-.
      apply valid_new_session. lia.
    - intros E. injection E as <-. congruence. }
  destruct (d !! "expires_at") as [[|s|x]|] eqn:Hx; try discriminate;
    try exact Hrefresh.
  destruct (x <? now e) eqn:Hlt; [exact Hrefresh|]. simpl.
  unfold access_token. rewrite Hd.
  destruct (d !! "access_token") as [v|] eqn:Ha; simpl;
    intros E; injection E as <-; [|congruence].
  intros _. exists d, x. apply Z.ltb_ge in Hlt. auto.
Qed.

(** X10. A token handed out is the access token of the current session, and
    that session is not expired at the time of the call: it was found
    unexpired, or it has just been refreshed with an expiry one hour ahead.
    An expired session that cannot be refreshed yields no token. *)
Theorem token_is_current (self : SupabaseAuth.t) (e : env) (token : pyval) :
  snd (fst (get_auth_token self e)) = Ok token ->
  token <> PNone ->
  valid_session (fst (fst (get_auth_token self e))) (now e) token.
Proof. apply get_auth_token_valid. Qed.



(** X12. A logout that reports success has cleared the session and the
    user id, and from then on no token is handed out and the service is not
    called, whatever the clock and the replies. A logout whose sign-out
    fails, or that finds no client or no session, changes nothing. *)
Theorem logout_clears (self : SupabaseAuth.t) (e : env) :
  let self1 := fst (fst (logout self e)) in
  (snd (fst (logout self e)) = true ->
   session self1 = None /\ get_user_id self1 = None
   /\ forall e', get_auth_token self1 e' = (self1, Ok PNone, [])
                 /\ is_authenticated self1 e' = (self1, Ok false, []))
  /\ (client self = false \/ no_session self = true
      \/ sign_out_error e <> None -> self1 = self).
Proof.
  cbv zeta. unfold logout.
  destruct (negb (client self) || no_session self) eqn:Hg; simpl.
  { split; [discriminate|reflexivity]. }
  apply orb_false_iff in Hg. destruct Hg as [Hc Hn].
  apply negb_false_iff in Hc.
  destruct (sign_out_error e) as [err|]; simpl.
  { split; [discriminate|reflexivity]. }
  split.
  - assert (Hclear : forall c e',
              get_auth_token (Make c None None) e' = (Make c None None, Ok PNone, [])
              /\ is_authenticated (Make c None None) e'
                 = (Make c None None, Ok false, [])).
    { intros c e'. split; reflexivity. }
    destruct (session_file_exists e); [destruct (remove_error e)|]; simpl;
      intros E; try discriminate; auto.
  - intros [H|[H|H]]; congruence.
Qed.

End Tokens.

(** ** The submission of a query *)

Section Submission.

Import SupabaseAuth ApiClient.

Lemma in_map_auth url token block (fx : list SupabaseAuth.effect) :
  ~ In (Post url token block) (map Auth fx).
Proof. induction fx as [|x fx IH]; simpl; [tauto|]. intros [H|H]; [discriminate|auto]. Qed.

Lemma send_query_posts (self : ApiClient.t)
    (auth : SupabaseAuth.t) (data_block : IntegrityAssistant.data_block)
    (e : env) (reply : http_reply)
    (url : string) (token : pyval) (block : IntegrityAssistant.data_block) :
  In (Post url token block) (snd (send_query self auth data_block e reply)) ->
  url = api_base_url self +:+ query_endpoint self
  /\ block = data_block
  /\ pyval_truthy token = true
  /\ valid_session (fst (fst (send_query self auth data_block e reply)))
       (now e) token.
Proof.
  unfold send_query.
  pose proof (get_auth_token_valid auth e) as Hcur.
  destruct (get_auth_token auth e) as [[auth1 r] fx]. simpl in Hcur.
  destruct r as [tok|m]; simpl.
  2: { intros H. exfalso. exact (in_map_auth _ _ _ _ H). }
  destruct (pyval_truthy tok) eqn:Ht; simpl.
  2: { intros H. exfalso. exact (in_map_auth _ _ _ _ H). }
  assert (Hin : In (Post url token block)
                  (map Auth fx ++ [Post (api_base_url self +:+ query_endpoint self)
                                        tok data_block]) ->
                url = api_base_url self +:+ query_endpoint self
                /\ block = data_block /\ pyval_truthy token = true
                /\ valid_session auth1 (now e) token).
  { intros H. apply in_app_or in H. destruct H as [H|[H|[]]].
    - exfalso. exact (in_map_auth _ _ _ _ H).
    - injection H as <- <- <-. repeat split; [exact Ht|].
      apply Hcur; [reflexivity|]. intros ->. discriminate. }
  destruct reply as [ex|status text json]; simpl; [exact Hin|].
  destruct (status =? 200); [destruct json as [ex|[r|]]; exact Hin|].
  destruct (status =? 401); [exact Hin|].
  destruct (status =? 429); exact Hin.
Qed.

(** X13. A query is posted only with a token that [get_auth_token] has just
    handed out: the token is true as a value, it is the access token of the
    session the call leaves, and that session is not expired; the request
    goes to the query endpoint and carries the data block it was given.
    Without such a token nothing is posted. *)
Theorem send_query_posts_current_token (self : ApiClient.t)
    (auth : SupabaseAuth.t) (data_block : IntegrityAssistant.data_block)
    (e : env) (reply : http_reply)
    (url : string) (token : pyval) (block : IntegrityAssistant.data_block) :
  In (Post url token block) (snd (send_query self auth data_block e reply)) ->
  url = api_base_url self +:+ query_endpoint self
  /\ block = data_block
  /\ pyval_truthy token = true
  /\ valid_session (fst (fst (send_query self auth data_block e reply)))
       (now e) token.
Proof. apply send_query_posts. Qed.

Lemma exn_message_truthy ex : Str.truthy (exn_message ex) = true.
Proof. destruct ex; reflexivity. Qed.

Lemma displays_api (fx : list ApiClient.effect) (m : string) :
  displays (map Query.Api fx ++ [Query.Display m]) = [m].
Proof. induction fx as [|x fx IH]; simpl; [reflexivity|exact IH]. Qed.

Lemma posts_api (fx : list ApiClient.effect) (m : string) x :
  In x (posts (map Query.Api fx ++ [Query.Display m])) ->
  exists url, In (Post url (fst x) (snd x)) fx.
Proof.
  induction fx as [|y fx IH]; simpl; [tauto|].
  destruct y as [a|url token block]; simpl.
  - intros H. destruct (IH H) as [url Hu]. eauto.
  - intros [<-|H]; [eauto|]. destruct (IH H) as [url' Hu]. eauto.
Qed.

(** X14. The submission of a query always ends with exactly one message
    displayed, and the message is never empty: the reply of the server, the
    text that stands for an empty reply, or the text of an error. Every
    request posted on the way carries the query as it was submitted, the
    user id the authentication object held and the references to the two
    lists of the assistant. *)
Theorem submit_query_displays_once (self : IntegrityAssistant.t)
    (api : ApiClient.t) (auth : SupabaseAuth.t) (query_text : string)
    (clk : clock) (e : env) (reply : http_reply) :
  let fx := snd (Query.submit_query self api auth query_text clk e reply) in
  (exists m, displays fx = [m] /\ Str.truthy m = true)
  /\ (forall token block,
        In (token, block) (posts fx) ->
        block = IntegrityAssistant.make_data_block self query_text
                  (get_user_id auth) clk).
Proof.
  cbv zeta. unfold Query.submit_query.
  pose proof (send_query_posts api auth
                (IntegrityAssistant.make_data_block self query_text
                   (get_user_id auth) clk) e reply) as Hpost.
  destruct (send_query api auth _ e reply) as [[auth1 response] fx].
  simpl in Hpost.
  assert (Hblocks : forall m token block,
            In (token, block) (posts (map Query.Api fx ++ [Query.Display m])) ->
            block = IntegrityAssistant.make_data_block self query_text
                      (get_user_id auth) clk).
  { intros m token block H. apply posts_api in H. destruct H as [url H].
    apply Hpost in H. tauto. }
  destruct (Str.truthy response) eqn:Ht; simpl; split; eauto;
    rewrite displays_api; eauto.
Qed.

End Submission.

(** ** The input field *)

Section InputField.

Import ChatOverlay.

Lemma trim_right_truthy (s : string) :
  Str.truthy (Normalize.trim_right s) = false <-> blank s = true.
Proof.
  induction s as [|c s IH]; simpl; [tauto|].
  destruct (Str.isspace c); simpl.
  - destruct (Str.truthy (Normalize.trim_right s)); simpl.
    + split; [discriminate|]. intros H. apply IH in H. discriminate.
    + split; [intros _; apply IH; reflexivity|reflexivity].
  - split; discriminate.
Qed.

Lemma trim_left_blank (s : string) :
  blank (Normalize.trim_left s) = blank s.
Proof.
  induction s as [|c s IH]; simpl; [reflexivity|].
  destruct (Str.isspace c) eqn:Hc; simpl; [exact IH|]. rewrite Hc. reflexivity.
Qed.

Lemma strip_blank (s : string) : Str.truthy (strip s) = negb (blank s).
Proof.
  unfold strip. rewrite <- trim_left_blank.
  destruct (Str.truthy (Normalize.trim_right (Normalize.trim_left s))) eqn:Ht.
  - destruct (blank (Normalize.trim_left s)) eqn:Hb; [|reflexivity].
    apply trim_right_truthy in Hb. congruence.
  - apply trim_right_truthy in Ht. rewrite Ht. reflexivity.
Qed.

Lemma trim_left_fixed (s : string) :
  match s with
  | EmptyString => True
  | String c _ => Str.isspace c = false
  end -> Normalize.trim_left s = s.
Proof. destruct s as [|c s]; simpl; [reflexivity|]. intros ->. reflexivity. Qed.

Lemma trim_right_head (s : string) :
  match s with
  | EmptyString => True
  | String c _ => Str.isspace c = false
  end ->
  match Normalize.trim_right s with
  | EmptyString => True
  | String c _ => Str.isspace c = false
  end.
Proof.
  destruct s as [|c s]; simpl; [tauto|]. intros Hc. rewrite Hc. simpl. exact Hc.
Qed.

Lemma trim_left_head (s : string) :
  match Normalize.trim_left s with
  | EmptyString => True
  | String c _ => Str.isspace c = false
  end.
Proof.
  induction s as [|c s IH]; simpl; [exact I|].
  destruct (Str.isspace c) eqn:Hc; [exact IH|exact Hc].
Qed.

Lemma trim_right_idempotent (s : string) :
  Normalize.trim_right (Normalize.trim_right s) = Normalize.trim_right s.
Proof.
  induction s as [|c s IH]; simpl; [reflexivity|].
  destruct (Str.isspace c && negb (Str.truthy (Normalize.trim_right s))) eqn:E;
    [reflexivity|].
  simpl. rewrite IH, E. reflexivity.
Qed.

Lemma strip_idempotent (s : string) : strip (strip s) = strip s.
Proof.
  unfold strip.
  rewrite (trim_left_fixed (Normalize.trim_right (Normalize.trim_left s)))
    by apply trim_right_head, trim_left_head.
  apply trim_right_idempotent.
Qed.

(** X15. The input field hands a query to its callback only when the text
    typed is not blank; the query handed over is the text without the
    whitespace at its ends: it is not empty and stripping it again changes
    nothing. A blank text does nothing at all: nothing is shown, the field
    is not cleared and the callback is not called. *)
Theorem input_field_submits_stripped {R : Type} (input_text : string)
    (cb : string -> R) :
  if blank input_text
  then submit_query input_text (Some cb) = ([], None)
  else snd (submit_query input_text (Some cb)) = Some (cb (strip input_text))
       /\ Str.truthy (strip input_text) = true
       /\ strip (strip input_text) = strip input_text.
Proof.
  unfold submit_query. rewrite strip_blank.
  destruct (blank input_text); simpl; [reflexivity|].
  split; [reflexivity|]. split; [reflexivity|]. apply strip_idempotent.
Qed.

End InputField.

(** ** The login dialog *)

Section Login.

Import SupabaseAuth LoginDialog.




End Login.

(** ** The further properties at work on concrete runs *)

Section FurtherRuns.

Import Store KeystrokeLogger IntegrityAssistant.

Abbreviation run := (run text_ocr).

(** X6 at work: [password1] and Enter, then more keys, a stop and a start. *)
Lemma masked_after_latch_witness :
  let w := run started (type_word (password_keys ++ ["1"]) t0
                        ++ [KeyRelease (Key "enter") t1]) in
  let evs := [KeyPress (char_key "s") t1; KeyPress (Key "enter") t1;
              KeyRelease (Key "enter") t1; Stop t1; Start;
              KeyPress (char_key "x") t1; KeyRelease (Key "tab") t1] in
  sensitive_mode (logger w) = true
  /\ all_mask (buffer (logger w)) = true
  /\ exists new,
       history (keystrokes (app w)) (heap (run w evs))
       = history (keystrokes (app w)) (heap w) ++ new
       /\ Forall masked_entry new.
Proof.
  cbv zeta. split; [reflexivity|]. split; [reflexivity|].
  apply (masked_after_latch text_ocr t0
           (Start :: type_word (password_keys ++ ["1"]) t0
            ++ [KeyRelease (Key "enter") t1])); reflexivity.
Defined.

(** X7 at work: after a stop, keys, a capture and one more stop. *)
Lemma idle_records_nothing_witness :
  let w := run started [KeyPress (char_key "a") t0; Stop t1] in
  let evs := [KeyPress (char_key "b") t1; KeyRelease (Key "enter") t1;
              Capture (Some "A") t1; Stop t1] in
  IntegrityAssistant.running (app w) = false
  /\ forallb (fun e => negb (is_start e)) evs = true
  /\ heap (run w evs) = heap w.
Proof.
  cbv zeta. split; [reflexivity|]. split; [reflexivity|].
  apply (idle_records_nothing text_ocr t0
           [Start; KeyPress (char_key "a") t0; Stop t1]); reflexivity.
Defined.

(** X10 at work: eighty minutes after the login the session is refreshed. *)
Lemma token_is_current_witness :
  snd (fst (SupabaseAuth.get_auth_token logged_in (answers 4801000)))
  = Ok (PStr "access-2")
  /\ PStr "access-2" <> PNone
  /\ valid_session
       (fst (fst (SupabaseAuth.get_auth_token logged_in (answers 4801000))))
       4801000 (PStr "access-2").
Proof.
  split; [reflexivity|]. split; [discriminate|].
  apply (token_is_current logged_in (answers 4801000) (PStr "access-2"));
    [reflexivity|discriminate].
Defined.


(** X13 at work: a query sent eighty minutes after the login goes out with
    the refreshed token. *)
Lemma send_query_posts_current_token_witness :
  let out := ApiClient.send_query (ApiClient.init None) logged_in sample_block
               (answers 4801000)
               (ApiClient.Response 200 "" (inr (Some "A login form."))) in
  In (ApiClient.Post "https://integrity-api.railway.app/api/query"
        (PStr "access-2") sample_block) (snd out)
  /\ "https://integrity-api.railway.app/api/query"
     = ApiClient.api_base_url (ApiClient.init None)
       +:+ ApiClient.query_endpoint (ApiClient.init None)
  /\ sample_block = sample_block
  /\ pyval_truthy (PStr "access-2") = true
  /\ valid_session (fst (fst out)) 4801000 (PStr "access-2").
Proof.
  cbv zeta.
  assert (Hin : In (ApiClient.Post "https://integrity-api.railway.app/api/query"
                      (PStr "access-2") sample_block)
                  (snd (ApiClient.send_query (ApiClient.init None) logged_in
                          sample_block (answers 4801000)
                          (ApiClient.Response 200 "" (inr (Some "A login form.")))))).
  { apply in_or_app. right. left. reflexivity. }
  split; [exact Hin|].
  apply (send_query_posts_current_token (ApiClient.init None) logged_in
           sample_block (answers 4801000)
           (ApiClient.Response 200 "" (inr (Some "A login form.")))
           "https://integrity-api.railway.app/api/query" (PStr "access-2")
           sample_block Hin).
Defined.

Example submit_query_unauthenticated :
  snd (Query.submit_query (app started) (ApiClient.init None) fresh_auth
         "what is on screen?" t0 (answers 1000) (ApiClient.Failed
            (ApiClient.RequestException "timed out")))
  = [Query.Display "Authentication error: Please log in to your account."].
Proof. reflexivity. Qed.

Example submit_query_server_error :
  displays (snd (Query.submit_query (app started) (ApiClient.init None) logged_in
                   "what is on screen?" t0 (answers 2000)
                   (ApiClient.Response 503 "busy" (inr None))))
  = ["Server error (503): busy"].
Proof. vm_compute. reflexivity. Qed.

Example typed_password_1 :
  typed text_ocr started (type_word (password_keys ++ ["1"; "2"]) t0)
  = "password**".
Proof. vm_compute. reflexivity. Qed.

(** The elapsed-time test is the program's, in floating point: with the last
    flush at the clock reading nearest to 1.003 and a key pressed at the
    reading nearest to 2.003, the difference computed is above one second,
    and the key is flushed at once. *)
Example elapsed_test_in_floating_point :
  let c1 := Clock 0x1.00c49ba5e353fp+0 "2024-01-01T00:00:01Z" in
  let c2 := Clock 0x1.00624dd2f1aap+1 "2024-01-01T00:00:02Z" in
  (1 <? time_time c2 - time_time c1)%float = true
  /\ read 1%nat (heap (run (init c1) [Start; KeyPress (char_key "p") c2]))
     = [keystroke_entry (strftime c2) "p"].
Proof. cbv zeta. split; vm_compute; reflexivity. Qed.

End FurtherRuns.
